(** * Brightness groups usermod (usermods/BrightnessGroups)

    A shallow embedding of [UsermodBrightnessGroups]
    (usermod_v2_brightness_groups.h) and the properties of its membership
    codec, its configuration load/save and its per-frame overlay.

    Conventions of the embedding:
    - [uint8_t] and [uint32_t] values are [Z] with the wrap-around written
      out ([to_uint8]); loop counters that index arrays are [nat];
    - [group_scale] (a fixed array of [max_groups+1] bytes) and the block
      behind [pixel_groups] are lists; [pixel_groups] itself is an
      [option]: [None] is the NULL pointer;
    - an access through a NULL pointer or beyond the end of a block is a
      [Fault]: every function that dereferences data-dependent indices
      lives in the [result] monad;
    - the host ([strip], the JSON document, [malloc], [millis]) is passed
      explicitly. *)

From Stdlib Require Import ZArith String Ascii List Bool Lia Sorted.
From stdpp Require Import base list.
Import ListNotations.

Set Warnings "-register-all".

Local Open Scope Z_scope.

(** ** Faults and the error monad *)

Inductive fault : Type :=
| NullDeref
| OutOfBounds.

Inductive result (A : Type) : Type :=
| Ok (a : A)
| Fault (f : fault).

Arguments Ok {A} a.
Arguments Fault {A} f.

Definition bind {A B : Type} (m : result A) (k : A -> result B) : result B :=
  match m with
  | Ok a => k a
  | Fault f => Fault f
  end.

Notation "x <- m ;; k" := (bind m (fun x => k))
  (at level 100, m at next level, right associativity).

(** ** Memory: blocks of bytes *)

Definition to_uint8 (v : Z) : Z := v mod 256.

Definition deref (p : option (list Z)) : result (list Z) :=
  match p with
  | Some block => Ok block
  | None => Fault NullDeref
  end.

Definition load (block : list Z) (i : nat) : result Z :=
  match block !! i with
  | Some v => Ok v
  | None => Fault OutOfBounds
  end.

Definition store (block : list Z) (i : nat) (v : Z) : result (list Z) :=
  if (i <? length block)%nat then Ok (<[i:=v]> block) else Fault OutOfBounds.

(** [malloc(n)]: the heap either refuses ([None]) or hands out [n] bytes
    whose contents are whatever was there before ([garbage]); nothing
    zeroes them. *)
Definition heap : Type := option (nat -> Z).

Definition malloc (h : heap) (n : nat) : option (list Z) :=
  match h with
  | None => None
  | Some garbage => Some (map (fun i => to_uint8 (garbage i)) (seq 0 n))
  end.

(** ** The usermod's private members *)

Definition max_groups : Z := 4.

Record state : Type := mkState {
  enabled : bool;
  initDone : bool;
  lastTime : Z;
  group_scale : list Z;
  pixel_groups : option (list Z)
}.

Definition set_pixel_groups (st : state) (p : option (list Z)) : state :=
  {| enabled := enabled st; initDone := initDone st; lastTime := lastTime st;
     group_scale := group_scale st; pixel_groups := p |}.

Definition set_group_scale (st : state) (gs : list Z) : state :=
  {| enabled := enabled st; initDone := initDone st; lastTime := lastTime st;
     group_scale := gs; pixel_groups := pixel_groups st |}.

(** The object as the class definition initialises it: [enabled],
    [initDone], [lastTime] and [pixel_groups] have initialisers,
    [group_scale] has none, so its five bytes are indeterminate. *)
Definition constructed (scales : list Z) : state :=
  {| enabled := false; initDone := false; lastTime := 0;
     group_scale := map to_uint8 (take 5 (scales ++ replicate 5 0));
     pixel_groups := None |}.

(** ** The strip (host) *)

(** Modelled from the spec: the strip object is declared outside the
    usermod's header; section 6 of the specification gives the accessors
    the usermod relies on: a physical pixel count fixed for the session, the current
    colour of pixel i and a setter for it.  A strip is the list of its
    pixels' 32-bit colours. *)
Abbreviation strip_t := (list Z).

(** Modelled from the spec: the physical pixel count (section 6). *)
Definition getLengthPhysical (strip : strip_t) : nat := length strip.

(** Modelled from the spec: the current colour of pixel i (section 6);
    black beyond the strip. *)
Definition getPixelColor (strip : strip_t) (i : nat) : Z :=
  default 0 (strip !! i).

(** Modelled from the spec: the setter of pixel i's colour (section 6);
    without effect beyond the strip. *)
Definition setPixelColor (strip : strip_t) (i : nat) (c : Z) : strip_t :=
  <[i:=c]> strip.

(** ** C strings: [strtok], [atoi], [String(int, DEC)] *)

Definition comma : ascii := ","%char.

(** All the fields of [s] between commas, empty ones included. *)
Fixpoint fields (s : string) : list string :=
  match s with
  | EmptyString => [EmptyString]
  | String c s' =>
      if Ascii.eqb c comma then EmptyString :: fields s'
      else match fields s' with
           | [] => [String c EmptyString]
           | f :: fs => String c f :: fs
           end
  end.

Definition nonempty (s : string) : bool :=
  match s with
  | EmptyString => false
  | String _ _ => true
  end.

(** The successive results of [strtok(str, ",")], [strtok(NULL, ",")], ...
    up to the NULL result: the maximal non-empty runs of characters other
    than the delimiter.  (A [string] stands for a C string: the characters
    before the terminating NUL.) *)
Definition strtok_all (s : string) : list string :=
  List.filter nonempty (fields s).

Definition is_space (c : ascii) : bool :=
  let n := nat_of_ascii c in
  ((9 <=? n) && (n <=? 13) || (n =? 32))%nat.

Definition is_digit (c : ascii) : bool :=
  let n := nat_of_ascii c in
  ((48 <=? n) && (n <=? 57))%nat.

Definition digit_val (c : ascii) : Z := Z.of_nat (nat_of_ascii c) - 48.

Fixpoint skip_space (s : string) : string :=
  match s with
  | String c s' => if is_space c then skip_space s' else s
  | EmptyString => s
  end.

Fixpoint atoi_digits (s : string) (acc : Z) : Z :=
  match s with
  | String c s' =>
      if is_digit c then atoi_digits s' (10 * acc + digit_val c) else acc
  | EmptyString => acc
  end.

(** The number a C string starts with: optional white space, optional
    sign, then the longest prefix of decimal digits; 0 when there is
    none. *)
Definition decimal_value (s : string) : Z :=
  match skip_space s with
  | String "-"%char s' => - atoi_digits s' 0
  | String "+"%char s' => atoi_digits s' 0
  | s' => atoi_digits s' 0
  end.

(** The bounds of [int], 32 bits wide on the targets. *)
Definition INT_MAX : Z := 2 ^ 31 - 1.
Definition INT_MIN : Z := - 2 ^ 31.

(** [atoi]: the number the string starts with, as an [int].  A number
    that does not fit an [int] is undefined in C; the C library of the
    targets computes [atoi] with [strtol], which stops at the bounds of
    [long], as wide as [int] there.  The properties of arbitrary text
    that depend on the value read are stated for tokens that fit. *)
Definition atoi (s : string) : Z :=
  Z.max INT_MIN (Z.min INT_MAX (decimal_value s)).

Definition digit_char (d : Z) : ascii := ascii_of_nat (Z.to_nat (48 + d)).

(** The digits of [n], most significant first, prepended to [acc]; one
    digit per unit of [fuel]. *)
Fixpoint dec_loop (fuel : nat) (n : Z) (acc : string) : string :=
  match fuel with
  | O => acc
  | S fuel' =>
      let acc' := String (digit_char (n mod 10)) acc in
      if n / 10 =? 0 then acc' else dec_loop fuel' (n / 10) acc'
  end.

(** [String(n, DEC)] for a non-negative [int] (at most ten digits). *)
Definition String_dec (n : Z) : string := dec_loop 10 n EmptyString.

(** ** The membership codec *)

Fixpoint process_tokens (strip : strip_t) (group : Z) (tokens : list string)
    (st : state) : result state :=
  match tokens with
  | [] => Ok st
  | token :: rest =>
      let pixel := to_uint8 (atoi token) in
      if negb (pixel =? 0) && (pixel <=? Z.of_nat (getLengthPhysical strip))
      then
        block <- deref (pixel_groups st) ;;
        block' <- store block (Z.to_nat (pixel - 1)) group ;;
        process_tokens strip group rest (set_pixel_groups st (Some block'))
      else process_tokens strip group rest st
  end.

Definition process_pixel_group_str (strip : strip_t) (group : Z)
    (pixel_group_str : string) (st : state) : result state :=
  if negb (initDone st) then Ok st
  else process_tokens strip group (strtok_all pixel_group_str) st.

Fixpoint format_loop (block : list Z) (group : Z) (pixels : list nat)
    (started : bool) (formatted : string) : result string :=
  match pixels with
  | [] => Ok formatted
  | pixel :: rest =>
      v <- load block pixel ;;
      if v =? group then
        let formatted' :=
          if started then String.append formatted ","%string else formatted in
        format_loop block group rest true
          (String.append formatted' (String_dec (Z.of_nat pixel + 1)))
      else format_loop block group rest started formatted
  end.

Definition generate_formatted_pixel_group (strip : strip_t) (group : Z)
    (st : state) : result string :=
  match pixel_groups st with
  | None => Ok EmptyString
  | Some block =>
      format_loop block group (seq 0 (getLengthPhysical strip)) false EmptyString
  end.

(** ** The configuration document (host) *)

(** Modelled from the spec: the JSON document type (ArduinoJson's
    JsonObject and JsonVariant) is declared outside the usermod's header.  Section 6
    of the specification describes the persisted document as an object of
    objects whose leaves are booleans, unsigned numbers and strings; an
    object keeps its members in insertion order, a missing member reads as
    null, and so does a member of something that is not an object. *)
Inductive Json : Type :=
| JNull
| JBool (b : bool)
| JNum (n : Z)
| JStr (s : string)
| JObj (members : list (string * Json)).

(** Modelled from the spec: [isNull()] of the document library; a field
    that is absent reads as null. *)
Definition isNull (j : Json) : bool :=
  match j with
  | JNull => true
  | _ => false
  end.

(** Modelled from the spec: member lookup in an object of the document
    (section 6), null when the key is absent. *)
Fixpoint assoc_get (key : string) (members : list (string * Json)) : Json :=
  match members with
  | [] => JNull
  | (k, v) :: rest => if String.eqb k key then v else assoc_get key rest
  end.

(** Modelled from the spec: member assignment in an object of the document
    (section 6); an existing key keeps its place. *)
Fixpoint assoc_put (key : string) (v : Json) (members : list (string * Json))
    : list (string * Json) :=
  match members with
  | [] => [(key, v)]
  | (k, v') :: rest =>
      if String.eqb k key then (k, v) :: rest
      else (k, v') :: assoc_put key v rest
  end.

(** Modelled from the spec: [j[key]] read from the document (section 6). *)
Definition get (j : Json) (key : string) : Json :=
  match j with
  | JObj members => assoc_get key members
  | _ => JNull
  end.

(** Modelled from the spec: the conversion of a variant to [JsonObject],
    null unless it is an object (section 6: the usermod's entry is an
    object of objects). *)
Definition as_JsonObject (j : Json) : Json :=
  match j with
  | JObj _ => j
  | _ => JNull
  end.

(** Modelled from the spec: [j[key] = v] written to the document, and
    [j.createNestedObject(key)] once the nested object [v] has been filled
    in (section 4.4, Save). *)
Definition put (j : Json) (key : string) (v : Json) : Json :=
  match j with
  | JObj members => JObj (assoc_put key v members)
  | _ => JObj [(key, v)]
  end.

(** Modelled from the spec: [getJsonValue] is declared outside the
    usermod's header.
    The comment above [readFromConfig] and section 4.4 of the
    specification give its contract: it returns false when the value is
    missing and the destination then takes the default, otherwise it
    copies the value into the destination and returns true.  The scale
    destination is an unsigned byte: a number in 0..255 is copied as it
    is.  What the JSON library makes of any other value is not described;
    the model takes 0 there, as ArduinoJson 6 does. *)
Definition as_uint8 (element : Json) : Z :=
  match element with
  | JNum n => if (0 <=? n) && (n <=? 255) then n else 0
  | _ => 0
  end.

(** Modelled from the spec: the pixels field is a string (section 6) and
    is copied as it is; the model takes the empty string for a value of
    another type. *)
Definition as_String (element : Json) : string :=
  match element with
  | JStr s => s
  | _ => EmptyString
  end.

(** Modelled from the spec: [getJsonValue] with a default, at the type of
    the scale (section 6: default 100 if absent).  The pair is the value
    left in the destination and the boolean returned. *)
Definition getJsonValue_uint8 (element : Json) (defaultValue : Z) : Z * bool :=
  if isNull element then (defaultValue, false) else (as_uint8 element, true).

(** Modelled from the spec: [getJsonValue] with a default, at the type of
    the pixels text (section 6: default empty string if absent). *)
Definition getJsonValue_String (element : Json) (defaultValue : string)
    : string * bool :=
  if isNull element then (defaultValue, false) else (as_String element, true).

(** [s[i] = c] on an Arduino String. *)
Fixpoint string_set (s : string) (i : nat) (c : ascii) : string :=
  match s, i with
  | EmptyString, _ => EmptyString
  | String _ s', O => String c s'
  | String a s', S i' => String a (string_set s' i' c)
  end.

Definition _name : string := "BrightnessGroups"%string.
Definition _enabled : string := "enabled"%string.

(** [group + '0'] stored into a [char]. *)
Definition group_char (group : Z) : ascii :=
  ascii_of_nat (Z.to_nat (to_uint8 (group + 48))).

(** The key [addToConfig] builds: ["Group 0"] with its character 6 replaced. *)
Definition groupName_save (group : Z) : string :=
  string_set "Group 0"%string 6 (group_char group).

(** The key [readFromConfig] builds: ["group0"] with its character 5 replaced. *)
Definition groupName_load (group : Z) : string :=
  string_set "group0"%string 5 (group_char group).

(** The values of [group] in [for (int group = 1; group <= max_groups; group++)]. *)
Definition groups : list Z := map Z.of_nat (seq 1 (Z.to_nat max_groups)).

(** [group_scale[group]] for a loop counter or constant: always inside the
    five-byte array. *)
Definition scale_at (st : state) (group : Z) : Z :=
  default 0 (group_scale st !! Z.to_nat group).

Definition set_scale_at (st : state) (group : Z) (v : Z) : state :=
  set_group_scale st (<[Z.to_nat group := v]> (group_scale st)).

(** ** Lifecycle *)

Definition enable (b : bool) (st : state) : state :=
  {| enabled := b; initDone := initDone st; lastTime := lastTime st;
     group_scale := group_scale st; pixel_groups := pixel_groups st |}.

Definition isEnabled (st : state) : bool := enabled st.

Definition setup (st : state) : state :=
  let st' := set_scale_at st 0 100 in
  {| enabled := enabled st'; initDone := true; lastTime := lastTime st';
     group_scale := group_scale st'; pixel_groups := pixel_groups st' |}.

(** [loop()]; [millis()] and [strip.isUpdating()] come from the host;
    [unsigned long] is 32 bits wide on the targets. *)
Definition loop (isUpdating : bool) (millis : Z) (st : state) : state :=
  if negb (enabled st) || isUpdating then st
  else if 1000 <? (millis - lastTime st) mod 2 ^ 32 then
    {| enabled := enabled st; initDone := initDone st; lastTime := millis;
       group_scale := group_scale st; pixel_groups := pixel_groups st |}
  else st.

(** ** Saving and loading the configuration *)

Fixpoint addToConfig_loop (strip : strip_t) (st : state) (gs : list Z)
    (top : Json) : result Json :=
  match gs with
  | [] => Ok top
  | group :: rest =>
      let groupName := groupName_save group in
      let groupJson := put (JObj []) "scale" (JNum (scale_at st group)) in
      pixels <- generate_formatted_pixel_group strip (to_uint8 group) st ;;
      let groupJson := put groupJson "pixels" (JStr pixels) in
      addToConfig_loop strip st rest (put top groupName groupJson)
  end.

Definition addToConfig (strip : strip_t) (root : Json) (st : state)
    : result Json :=
  let top := put (JObj []) _enabled (JBool (enabled st)) in
  top' <- addToConfig_loop strip st groups top ;;
  Ok (put root _name top').

Fixpoint readFromConfig_loop (strip : strip_t) (h : heap) (top : Json)
    (gs : list Z) (st : state) (configComplete : bool)
    : result (state * bool) :=
  match gs with
  | [] => Ok (st, configComplete)
  | group :: rest =>
      let groupName := groupName_load group in
      let '(v, present) :=
        getJsonValue_uint8 (get (get top groupName) "scale") 100 in
      let st := set_scale_at st group v in
      let configComplete := configComplete && present in
      let st :=
        if 100 <? scale_at st group then set_scale_at st group 100 else st in
      let '(pixelGroup, present) :=
        getJsonValue_String (get (get top groupName) "pixels") EmptyString in
      let configComplete := configComplete && present in
      match pixel_groups st with
      | Some _ =>
          st' <- process_pixel_group_str strip (to_uint8 group) pixelGroup st ;;
          readFromConfig_loop strip h top rest st' configComplete
      | None =>
          match malloc h (getLengthPhysical strip) with
          | None => Ok (st, false)
          | Some block =>
              st' <- process_pixel_group_str strip (to_uint8 group) pixelGroup
                       (set_pixel_groups st (Some block)) ;;
              readFromConfig_loop strip h top rest st' configComplete
          end
      end
  end.

Definition readFromConfig (strip : strip_t) (h : heap) (root : Json)
    (st : state) : result (state * bool) :=
  let top := as_JsonObject (get root _name) in
  let configComplete := negb (isNull top) in
  readFromConfig_loop strip h top groups st configComplete.

(** ** The overlay *)

(** Modelled from the spec: the colour macros R, G, B, W and RGBW32 are
    defined outside the usermod's header; section 6 of the specification gives a
    colour as four 8-bit channels (red, green, blue, white), which WLED
    packs into 32 bits as white, red, green, blue from the top byte
    down. *)
Definition W (c : Z) : Z := to_uint8 (Z.shiftr c 24).

(** Modelled from the spec: the red channel of a packed colour. *)
Definition R (c : Z) : Z := to_uint8 (Z.shiftr c 16).

(** Modelled from the spec: the green channel of a packed colour. *)
Definition G (c : Z) : Z := to_uint8 (Z.shiftr c 8).

(** Modelled from the spec: the blue channel of a packed colour. *)
Definition B (c : Z) : Z := to_uint8 c.

(** Modelled from the spec: the packing of four channels into a colour. *)
Definition RGBW32 (r g b w : Z) : Z :=
  Z.lor (Z.lor (Z.lor (Z.shiftl (to_uint8 w) 24) (Z.shiftl (to_uint8 r) 16))
               (Z.shiftl (to_uint8 g) 8))
        (to_uint8 b).

(** [uint8_t x = ch * scale / 100.0]: the product is an [int] (at most
    255 * 255), the division is carried out on doubles and the conversion
    to [uint8_t] drops the fraction.  A quotient of integers this small
    that is not an integer is further from the next integer than a double
    rounds, so what is kept is the integer quotient.  (Above 255, which
    needs a scale above 100, the conversion is undefined in C; the model
    wraps.) *)
Definition scale_channel (ch scale : Z) : Z := to_uint8 (ch * scale / 100).

Fixpoint overlay_loop (st : state) (pixels : list nat) (strip : strip_t)
    : result strip_t :=
  match pixels with
  | [] => Ok strip
  | pixel :: rest =>
      let c := getPixelColor strip pixel in
      block <- deref (pixel_groups st) ;;
      gid <- load block pixel ;;
      scale <- load (group_scale st) (Z.to_nat gid) ;;
      let w := scale_channel (W c) scale in
      let r := scale_channel (R c) scale in
      let g := scale_channel (G c) scale in
      let b := scale_channel (B c) scale in
      overlay_loop st rest (setPixelColor strip pixel (RGBW32 r g b w))
  end.

Definition handleOverlayDraw (st : state) (strip : strip_t) : result strip_t :=
  if negb (initDone st) || negb (enabled st) then Ok strip
  else overlay_loop st (seq 0 (getLengthPhysical strip)) strip.

(** ** The host driving the usermod *)

Inductive op : Type :=
| OpSetup
| OpLoop (isUpdating : bool) (millis : Z)
| OpEnable (b : bool)
| OpIsEnabled
| OpAddToConfig (root : Json)
| OpReadFromConfig (root : Json) (h : heap)
| OpAppendConfigData
| OpHandleOverlayDraw
| OpGetId.

Definition world : Type := state * strip_t.

Definition step (o : op) (w : world) : result world :=
  let '(st, strip) := w in
  match o with
  | OpSetup => Ok (setup st, strip)
  | OpLoop isUpdating millis => Ok (loop isUpdating millis st, strip)
  | OpEnable b => Ok (enable b st, strip)
  | OpIsEnabled => Ok w
  | OpAddToConfig root => _ <- addToConfig strip root st ;; Ok w
  | OpReadFromConfig root h =>
      r <- readFromConfig strip h root st ;; Ok (fst r, strip)
  | OpAppendConfigData => Ok w
  | OpHandleOverlayDraw => strip' <- handleOverlayDraw st strip ;; Ok (st, strip')
  | OpGetId => Ok w
  end.

Fixpoint run (ops : list op) (w : world) : result world :=
  match ops with
  | [] => Ok w
  | o :: rest => w' <- step o w ;; run rest w'
  end.

(** ** Notions used in the statements *)

Fixpoint all_digits (s : string) : bool :=
  match s with
  | EmptyString => true
  | String c s' => is_digit c && all_digits s'
  end.

Fixpoint comma_free (s : string) : bool :=
  match s with
  | EmptyString => true
  | String c s' => negb (Ascii.eqb c comma) && comma_free s'
  end.

(** What [format_loop] appends for the pixel numbers [ms]. *)
Fixpoint render (started : bool) (ms : list Z) : string :=
  match ms with
  | [] => EmptyString
  | m :: rest =>
      String.append (if started then ","%string else EmptyString)
        (String.append (String_dec m) (render true rest))
  end.

(** The pixels of [pixels] (0-based) that [block] assigns to [group]. *)
Definition selected (block : list Z) (group : Z) (pixels : list nat) : list nat :=
  List.filter (fun p => default 0 (block !! p) =? group) pixels.

Definition number (pixel : nat) : Z := Z.of_nat pixel + 1.

(** The membership set of [group]: the 1-based numbers of its pixels, in
    ascending order. *)
Definition members (group : Z) (block : list Z) : list Z :=
  map number (selected block group (seq 0 (length block))).

Definition table_members (group : Z) (st : state) : list Z :=
  match pixel_groups st with
  | Some block => members group block
  | None => []
  end.

Definition default_table (strip : strip_t) : list Z :=
  replicate (getLengthPhysical strip) 0.



(** What [process_pixel_group_str] leaves alone. *)
Definition frame (st st' : state) : Prop :=
  enabled st' = enabled st /\ initDone st' = initDone st /\
  lastTime st' = lastTime st /\ group_scale st' = group_scale st.

(** A usermod that has been set up and whose table is [block]. *)
Definition ready (block : list Z) : state :=
  {| enabled := true; initDone := true; lastTime := 0;
     group_scale := [100; 100; 100; 100; 100];
     pixel_groups := Some block |}.


(** What one iteration of [readFromConfig]'s loop reads for [group]. *)
Definition scale_field (top : Json) (group : Z) : Json :=
  get (get top (groupName_load group)) "scale".

Definition pixels_field (top : Json) (group : Z) : Json :=
  get (get top (groupName_load group)) "pixels".

Definition loaded_scale (top : Json) (group : Z) : Z :=
  Z.min (fst (getJsonValue_uint8 (scale_field top group) 100)) 100.

Definition loaded_pixels (top : Json) (group : Z) : string :=
  fst (getJsonValue_String (pixels_field top group) EmptyString).

Definition fields_present (top : Json) (group : Z) : bool :=
  negb (isNull (scale_field top group)) && negb (isNull (pixels_field top group)).

(** The usermod's object in the document, as [readFromConfig] sees it. *)
Definition config_top (root : Json) : Json := as_JsonObject (get root _name).

(** Every field [readFromConfig] asks for is there. *)
Definition complete (root : Json) : bool :=
  negb (isNull (config_top root)) && forallb (fields_present (config_top root)) groups.

(** The scale array after the iterations for [gs]. *)
Definition load_scales (top : Json) (gs : list Z) (scales : list Z) : list Z :=
  fold_left (fun l g => <[Z.to_nat g := loaded_scale top g]> l) gs scales.

(** The block behind [pixel_groups] is as long as the strip. *)
Definition table_fits (strip : strip_t) (st : state) : Prop :=
  forall block, pixel_groups st = Some block ->
                length block = getLengthPhysical strip.

(** A document with every field [readFromConfig] asks for. *)
Definition group_doc (key : string) (scale : Z) (pixels : string)
    : string * Json :=
  (key, JObj [("scale"%string, JNum scale); ("pixels"%string, JStr pixels)]).

(** A document whose scale for group 1 is beyond the byte. *)
Definition over_root : Json :=
  JObj [(_name, JObj [group_doc "group1" 300 "2"])].

Definition sample_root : Json :=
  JObj [(_name,
         JObj [(_enabled, JBool true);
               group_doc "group1" 130 "2";
               group_doc "group2" 50 "1,3";
               group_doc "group3" 0 "";
               group_doc "group4" 100 "9,x,3"])].

(** Group 2 at 50 percent with pixels 2, 4 and 5 of a strip of five. *)
Definition saved_state : state :=
  {| enabled := true; initDone := true; lastTime := 0;
     group_scale := [100; 100; 50; 100; 100];
     pixel_groups := Some [0; 2; 0; 2; 2] |}.

(** A boot during which the heap refuses the table, then a frame. *)
Definition boot_without_heap : list op :=
  [OpReadFromConfig sample_root None; OpSetup; OpEnable true;
   OpHandleOverlayDraw].

(** A session: boot, settings saved and loaded again, frames. *)
Definition session : list op :=
  [OpLoop false 5000; OpEnable true; OpLoop false 5000;
   OpReadFromConfig sample_root None; OpAddToConfig (JObj []);
   OpReadFromConfig sample_root (Some (fun _ => 0)); OpHandleOverlayDraw;
   OpAppendConfigData; OpIsEnabled; OpGetId; OpSetup; OpHandleOverlayDraw].

(** The colour the overlay writes for a pixel of colour [c] whose group
    has the scale [scale]. *)
Definition scaled_color (scale c : Z) : Z :=
  RGBW32 (scale_channel (R c) scale) (scale_channel (G c) scale)
         (scale_channel (B c) scale) (scale_channel (W c) scale).

Definition pixel_scale (st : state) (block : list Z) (pixel : nat) : Z :=
  match block !! pixel with
  | Some gid => scale_at st gid
  | None => 0
  end.

(** The first end-to-end scenario of the specification, on five pixels:
    group 2 holds pixels 1, 3 and 5 at 50 percent. *)
Definition half_state : state :=
  {| enabled := true; initDone := true; lastTime := 0;
     group_scale := [100; 100; 50; 100; 100];
     pixel_groups := Some [2; 0; 2; 0; 2] |}.

Definition grey_strip : list Z := replicate 5 (RGBW32 200 200 200 200).

(** ** The settings page metadata *)

(** [appendConfigData()]: the texts handed to [oappend], in order.  The
    flash-string wrappers (SET_F, FPSTR) leave the text as it is;
    [String(group, 10)] is the decimal numeral. *)
Fixpoint appendConfigData_loop (gs : list Z) : list string :=
  match gs with
  | [] => []
  | group :: rest =>
      ["addInfo('"%string;
       _name;
       ":group"%string;
       String_dec group;
       ":scale"%string;
       "',1,'<i>Local brightness value for each group between 0 and 255.</i>');"%string;
       "addInfo('"%string;
       _name;
       ":group"%string;
       String_dec group;
       ":pixels"%string;
       "',1,'Associated group for each physical pixel. Invalid or no group # will result in no impact on the pixel brightness.');"%string]
      ++ appendConfigData_loop rest
  end.

Definition appendConfigData : list string := appendConfigData_loop groups.

(** ** Notions used in the further properties *)

(** [token] carries the number of pixel [i] (0-based) as the decoder reads
    it: the byte kept of [atoi]'s result is [i + 1] and lies on the strip. *)
Definition token_names (strip : strip_t) (i : nat) (token : string) : bool :=
  let pixel := to_uint8 (atoi token) in
  (pixel =? Z.of_nat i + 1) && (pixel <=? Z.of_nat (getLengthPhysical strip)).

(** The number [token] holds fits an [int]: what C asks of [atoi]'s
    argument. *)
Definition fits_int (token : string) : bool :=
  (INT_MIN <=? decimal_value token) && (decimal_value token <=? INT_MAX).

(** Every token of the text [s] fits. *)
Definition tokens_fit_int (s : string) : bool :=
  forallb fits_int (strtok_all s).

(** The number [token] holds, cut to a byte, is the number of pixel [i]
    (0-based) and lies on the strip. *)
Definition holds_number (strip : strip_t) (i : nat) (token : string) : bool :=
  let pixel := to_uint8 (decimal_value token) in
  (pixel =? Z.of_nat i + 1) && (pixel <=? Z.of_nat (getLengthPhysical strip)).

(** Some token of the text [s] holds the number of pixel [i]. *)
Definition lists_pixel (strip : strip_t) (s : string) (i : nat) : bool :=
  existsb (holds_number strip i) (strtok_all s).

(** Some token of the text [s] names pixel [i]. *)
Definition names (strip : strip_t) (s : string) (i : nat) : bool :=
  existsb (token_names strip i) (strtok_all s).

(** The entry of pixel [i] after the iterations for [gs], from the entry
    [cur] before them: each group whose pixels text names the pixel
    overwrites it. *)
Definition load_entry (strip : strip_t) (top : Json) (gs : list Z) (i : nat)
    (cur : option Z) : option Z :=
  fold_left
    (fun acc g =>
       if names strip (loaded_pixels top g) i then Some (to_uint8 g) else acc)
    gs cur.

(** A world in which the table is allocated, as long as the strip, and
    holds group ids only. *)
Definition healthy (w : world) : Prop :=
  length (group_scale (fst w)) = 5%nat /\
  exists block,
    pixel_groups (fst w) = Some block /\
    length block = getLengthPhysical (snd w) /\
    Forall (fun gid => 0 <= gid <= max_groups) block.

(** The two entries of the settings page for the group stored under [key]. *)
Definition info_text (key : string) : string :=
  String.concat EmptyString
    ["addInfo('"%string; _name; ":"%string; key; ":scale"%string;
     "',1,'<i>Local brightness value for each group between 0 and 255.</i>');"%string;
     "addInfo('"%string; _name; ":"%string; key; ":pixels"%string;
     "',1,'Associated group for each physical pixel. Invalid or no group # will result in no impact on the pixel brightness.');"%string].

(** Not a call of [enable(true)]. *)
Definition not_enabling (o : op) : bool :=
  match o with
  | OpEnable true => false
  | _ => true
  end.

(** A session in which the host never calls [enable(true)]. *)
Definition quiet_session : list op :=
  [OpReadFromConfig sample_root (Some (fun _ => 0)); OpSetup;
   OpLoop false 5000; OpHandleOverlayDraw;
   OpReadFromConfig sample_root None; OpEnable false; OpHandleOverlayDraw].

(** A day of operation on a healthy table. *)
Definition busy_session : list op :=
  [OpHandleOverlayDraw; OpReadFromConfig sample_root None;
   OpAddToConfig sample_root; OpLoop false 70000; OpEnable false;
   OpHandleOverlayDraw; OpSetup; OpReadFromConfig (JObj []) None;
   OpEnable true; OpHandleOverlayDraw].

(** * Properties *)

(** ** Strings *)

Lemma append_assoc (a b c : string) :
  String.append (String.append a b) c = String.append a (String.append b c).
Proof. induction a as [|x a IH]; simpl; [reflexivity | now rewrite IH]. Qed.

Lemma append_empty_r (a : string) : String.append a EmptyString = a.
Proof. induction a as [|x a IH]; simpl; [reflexivity | now rewrite IH]. Qed.

Lemma is_digit_not_special (c : ascii) :
  is_digit c = true ->
  is_space c = false /\ Ascii.eqb c comma = false /\
  c <> "-"%char /\ c <> "+"%char.
Proof.
  destruct c as [[] [] [] [] [] [] [] []]; vm_compute; intros H;
    try discriminate H; repeat split; congruence.
Qed.

Lemma digit_char_spec (d : Z) :
  0 <= d <= 9 ->
  is_digit (digit_char d) = true /\ digit_val (digit_char d) = d.
Proof.
  intros H.
  assert (Hd : d = 0 \/ d = 1 \/ d = 2 \/ d = 3 \/ d = 4 \/
               d = 5 \/ d = 6 \/ d = 7 \/ d = 8 \/ d = 9) by lia.
  repeat (destruct Hd as [-> | Hd]; [split; reflexivity |]).
  subst d; split; reflexivity.
Qed.

Lemma atoi_starts_with_digit (c : ascii) (s : string) :
  is_digit c = true ->
  decimal_value (String c s) = atoi_digits (String c s) 0.
Proof.
  intros H. destruct (is_digit_not_special c H) as (Hs & _ & Hm & Hp).
  unfold decimal_value. simpl skip_space. rewrite Hs.
  destruct c as [[] [] [] [] [] [] [] []]; try reflexivity; congruence.
Qed.

Lemma atoi_digits_app (s t : string) (acc : Z) :
  all_digits s = true ->
  atoi_digits (String.append s t) acc = atoi_digits t (atoi_digits s acc).
Proof.
  revert acc. induction s as [|c s IH]; intros acc H; simpl in *.
  - reflexivity.
  - apply andb_prop in H as [Hc Hs]. rewrite Hc. now apply IH.
Qed.

Lemma all_digits_app (s t : string) :
  all_digits (String.append s t) = all_digits s && all_digits t.
Proof.
  induction s as [|c s IH]; simpl; [reflexivity |].
  now rewrite IH, andb_assoc.
Qed.

Lemma all_digits_comma_free (s : string) :
  all_digits s = true -> comma_free s = true.
Proof.
  induction s as [|c s IH]; simpl; intros H; [reflexivity |].
  apply andb_prop in H as [Hc Hs].
  destruct (is_digit_not_special c Hc) as (_ & -> & _). simpl. auto.
Qed.

Lemma dec_loop_acc (fuel : nat) (n : Z) (acc : string) :
  dec_loop fuel n acc = String.append (dec_loop fuel n EmptyString) acc.
Proof.
  revert n acc. induction fuel as [|fuel IH]; intros n acc; simpl.
  - reflexivity.
  - destruct (n / 10 =? 0); [reflexivity |].
    rewrite (IH _ (String _ acc)), (IH _ (String _ EmptyString)).
    now rewrite append_assoc.
Qed.

Lemma dec_loop_spec (fuel : nat) (n : Z) :
  0 <= n < 10 ^ Z.of_nat fuel ->
  all_digits (dec_loop fuel n EmptyString) = true /\
  atoi_digits (dec_loop fuel n EmptyString) 0 = n.
Proof.
  revert n. induction fuel as [|fuel IH]; intros n Hn.
  - simpl in *. split; [reflexivity | lia].
  - rewrite Nat2Z.inj_succ, Z.pow_succ_r in Hn by lia.
    assert (Hd : 0 <= n mod 10 <= 9) by (pose proof (Z.mod_pos_bound n 10); lia).
    destruct (digit_char_spec _ Hd) as [Hdig Hval].
    simpl. destruct (n / 10 =? 0) eqn:Hq.
    + apply Z.eqb_eq in Hq. simpl. rewrite Hdig, Hval. split; [reflexivity |].
      pose proof (Z.div_mod n 10). lia.
    + rewrite dec_loop_acc.
      destruct (IH (n / 10)) as [Hall Hv].
      { split; [apply Z.div_pos; lia | apply Z.div_lt_upper_bound; lia]. }
      split.
      * rewrite all_digits_app, Hall. simpl. now rewrite Hdig.
      * rewrite atoi_digits_app by exact Hall. rewrite Hv. simpl.
        rewrite Hdig, Hval. pose proof (Z.div_mod n 10). lia.
Qed.

Lemma dec_loop_nonempty (fuel : nat) (n : Z) (acc : string) :
  nonempty (dec_loop (S fuel) n acc) = true.
Proof.
  revert n acc. induction fuel as [|fuel IH]; intros n acc.
  - simpl. now destruct (n / 10 =? 0).
  - change (dec_loop (S (S fuel)) n acc)
      with (let acc' := String (digit_char (n mod 10)) acc in
            if n / 10 =? 0 then acc' else dec_loop (S fuel) (n / 10) acc').
    cbv zeta. destruct (n / 10 =? 0); [reflexivity | apply IH].
Qed.

Lemma String_dec_spec (n : Z) :
  0 <= n < 10 ^ 10 ->
  all_digits (String_dec n) = true /\
  nonempty (String_dec n) = true /\
  decimal_value (String_dec n) = n.
Proof.
  intros Hn. unfold String_dec.
  destruct (dec_loop_spec 10 n) as [Hall Hv]; [simpl Z.of_nat; lia |].
  pose proof (dec_loop_nonempty 9 n EmptyString) as Hne.
  repeat split; try assumption.
  destruct (dec_loop 10 n EmptyString) as [|c s] eqn:E; [discriminate Hne |].
  rewrite atoi_starts_with_digit; [exact Hv |].
  simpl in Hall. now apply andb_prop in Hall as [? _].
Qed.

Lemma atoi_fits (s : string) :
  INT_MIN <= decimal_value s <= INT_MAX -> atoi s = decimal_value s.
Proof. unfold atoi. lia. Qed.

(** [atoi] reads back what [String(n, DEC)] prints. *)
Lemma atoi_String_dec (n : Z) :
  0 <= n <= INT_MAX -> atoi (String_dec n) = n.
Proof.
  intros Hn. unfold INT_MAX in Hn.
  destruct (String_dec_spec n) as (_ & _ & Hv); [lia |].
  rewrite atoi_fits; [exact Hv |]. rewrite Hv. unfold INT_MIN, INT_MAX. lia.
Qed.

(** ** [strtok] on what [generate_formatted_pixel_group] prints *)

Lemma fields_comma_free (t : string) :
  comma_free t = true -> fields t = [t].
Proof.
  induction t as [|c t IH]; simpl; intros H; [reflexivity |].
  apply andb_prop in H as [Hc Ht]. apply negb_true_iff in Hc.
  now rewrite Hc, IH.
Qed.

Lemma fields_app_comma (t rest : string) :
  comma_free t = true ->
  fields (String.append t (String comma rest)) = t :: fields rest.
Proof.
  induction t as [|c t IH]; simpl; intros H; [reflexivity |].
  apply andb_prop in H as [Hc Ht]. apply negb_true_iff in Hc.
  now rewrite Hc, IH.
Qed.

Lemma fields_render (ms : list Z) (t : string) :
  comma_free t = true ->
  Forall (fun m => 0 <= m < 10 ^ 10) ms ->
  fields (String.append t (render true ms)) = t :: map String_dec ms.
Proof.
  revert t. induction ms as [|m ms IH]; intros t Ht Hms; simpl.
  - rewrite append_empty_r. now apply fields_comma_free.
  - inversion Hms as [|? ? Hm Hms']; subst.
    rewrite fields_app_comma by exact Ht.
    rewrite IH; [reflexivity | | exact Hms'].
    apply all_digits_comma_free. now apply String_dec_spec.
Qed.

Lemma filter_nonempty_decs (ms : list Z) :
  List.filter nonempty (map String_dec ms) = map String_dec ms.
Proof.
  induction ms as [|m ms IH]; simpl; [reflexivity |].
  unfold String_dec at 1. rewrite dec_loop_nonempty. now rewrite IH.
Qed.

Lemma strtok_all_render (ms : list Z) :
  Forall (fun m => 0 <= m < 10 ^ 10) ms ->
  strtok_all (render false ms) = map String_dec ms.
Proof.
  intros Hms. unfold strtok_all. destruct ms as [|m ms]; [reflexivity |].
  inversion Hms as [|? ? Hm Hms']; subst.
  cbn [render]. change (String.append EmptyString ?x) with x.
  rewrite fields_render; [| | exact Hms'].
  - apply (filter_nonempty_decs (m :: ms)).
  - apply all_digits_comma_free. now apply String_dec_spec.
Qed.

(** ** The encoder *)

Lemma format_loop_spec (block : list Z) (group : Z) (pixels : list nat)
    (started : bool) (formatted : string) :
  Forall (fun p => (p < length block)%nat) pixels ->
  format_loop block group pixels started formatted =
  Ok (String.append formatted
        (render started (map number (selected block group pixels)))).
Proof.
  revert started formatted.
  induction pixels as [|p pixels IH]; intros started formatted Hin.
  - simpl. now rewrite append_empty_r.
  - inversion Hin as [|? ? Hp Hin']; subst.
    destruct (lookup_lt_is_Some_2 block p Hp) as [v Hv].
    cbn [format_loop]. unfold load. rewrite Hv. cbn [bind].
    change (selected block group (p :: pixels))
      with (if default 0 (block !! p) =? group
            then p :: selected block group pixels
            else selected block group pixels).
    rewrite Hv. change (default 0 (Some v)) with v.
    destruct (v =? group).
    + rewrite IH by exact Hin'. cbn [map render]. f_equal.
      change (number p) with (Z.of_nat p + 1).
      destruct started; cbn [String.append]; now rewrite !append_assoc.
    + now apply IH.
Qed.

Lemma selected_bound (block : list Z) (group : Z) (n : nat) (p : nat) :
  In p (selected block group (seq 0 n)) ->
  (p < n)%nat /\ default 0 (block !! p) = group.
Proof.
  unfold selected. rewrite filter_In, in_seq. intros [Hp He].
  apply Z.eqb_eq in He. split; [lia | exact He].
Qed.


Lemma members_bound (group : Z) (block : list Z) :
  Forall (fun m => 1 <= m <= Z.of_nat (length block)) (members group block).
Proof.
  unfold members. apply List.Forall_forall. intros m Hm.
  apply in_map_iff in Hm as (p & <- & Hp).
  apply selected_bound in Hp as [Hp _]. unfold number. lia.
Qed.

Lemma generate_formatted_pixel_group_spec (strip : strip_t) (group : Z)
    (st : state) (block : list Z) :
  pixel_groups st = Some block ->
  length block = getLengthPhysical strip ->
  generate_formatted_pixel_group strip group st =
  Ok (render false (members group block)).
Proof.
  intros Hb Hlen. unfold generate_formatted_pixel_group. rewrite Hb.
  rewrite format_loop_spec.
  - unfold members. now rewrite Hlen.
  - apply List.Forall_forall. intros p Hp. apply in_seq in Hp. lia.
Qed.

(** ** The decoder *)






Lemma process_tokens_ok (strip : strip_t) (group : Z) (tokens : list string)
    (st : state) (block : list Z) :
  pixel_groups st = Some block ->
  (getLengthPhysical strip <= length block)%nat ->
  exists block',
    process_tokens strip group tokens st = Ok (set_pixel_groups st (Some block')) /\
    length block' = length block.
Proof.
  revert st block. induction tokens as [|token rest IH]; intros st block Hb Hlen.
  - exists block. split; [| reflexivity]. cbn. destruct st; cbn in *. now rewrite Hb.
  - cbn [process_tokens]. set (pixel := to_uint8 (atoi token)).
    destruct (negb (pixel =? 0) && (pixel <=? Z.of_nat (getLengthPhysical strip)))
      eqn:Hguard.
    + apply andb_prop in Hguard as [Hnz Hle].
      apply negb_true_iff, Z.eqb_neq in Hnz. apply Z.leb_le in Hle.
      assert (0 <= pixel) by (apply Z.mod_pos_bound; lia).
      rewrite Hb. cbn [deref bind]. unfold store.
      replace (Z.to_nat (pixel - 1) <? length block)%nat with true
        by (symmetry; apply Nat.ltb_lt; lia).
      cbn [bind].
      destruct (IH (set_pixel_groups st (Some (<[Z.to_nat (pixel - 1) := group]> block)))
                   (<[Z.to_nat (pixel - 1) := group]> block))
        as (block' & Hrun & Hlen'); [reflexivity | now rewrite length_insert |].
      exists block'. split; [exact Hrun | now rewrite Hlen', length_insert].
    + now apply IH.
Qed.

(** A token whose byte value is 0 or beyond the strip is passed over. *)
Lemma process_tokens_skip (strip : strip_t) (group : Z) (token : string)
    (rest : list string) (st : state) :
  to_uint8 (atoi token) = 0 \/
  Z.of_nat (getLengthPhysical strip) < to_uint8 (atoi token) ->
  process_tokens strip group (token :: rest) st =
  process_tokens strip group rest st.
Proof.
  intros H. cbn [process_tokens].
  destruct H as [-> | H]; [reflexivity |].
  replace (to_uint8 (atoi token) <=? Z.of_nat (getLengthPhysical strip))
    with false by (symmetry; apply Z.leb_gt; lia).
  now rewrite andb_false_r.
Qed.

Lemma process_pixel_group_str_ok (strip : strip_t) (group : Z) (s : string)
    (st : state) (block : list Z) :
  pixel_groups st = Some block ->
  (getLengthPhysical strip <= length block)%nat ->
  exists st' block',
    process_pixel_group_str strip group s st = Ok st' /\
    frame st st' /\
    pixel_groups st' = Some block' /\ length block' = length block.
Proof.
  intros Hb Hlen. unfold process_pixel_group_str.
  destruct (negb (initDone st)).
  - exists st, block. repeat split; assumption.
  - destruct (process_tokens_ok strip group (strtok_all s) st block Hb Hlen)
      as (block' & -> & Hlen').
    exists (set_pixel_groups st (Some block')), block'. repeat split. exact Hlen'.
Qed.

Lemma process_pixel_group_str_uninit (strip : strip_t) (group : Z) (s : string)
    (st : state) :
  initDone st = false -> process_pixel_group_str strip group s st = Ok st.
Proof. intros H. unfold process_pixel_group_str. now rewrite H. Qed.

(** ** The round trip of the codec *)




(** ** Loading the configuration *)

Lemma process_tokens_frame (strip : strip_t) (group : Z) (tokens : list string)
    (st st' : state) :
  process_tokens strip group tokens st = Ok st' -> frame st st'.
Proof.
  revert st. induction tokens as [|token rest IH]; intros st H.
  - injection H as <-. now repeat split.
  - cbn [process_tokens] in H.
    destruct (negb (to_uint8 (atoi token) =? 0) &&
              (to_uint8 (atoi token) <=? Z.of_nat (getLengthPhysical strip))).
    + destruct (deref (pixel_groups st)) as [block|]; [| discriminate H].
      cbn [bind] in H.
      destruct (store block _ group) as [block'|]; [| discriminate H].
      cbn [bind] in H. apply IH in H. exact H.
    + now apply IH.
Qed.

Lemma process_pixel_group_str_frame (strip : strip_t) (group : Z) (s : string)
    (st st' : state) :
  process_pixel_group_str strip group s st = Ok st' -> frame st st'.
Proof.
  unfold process_pixel_group_str. destruct (negb (initDone st)).
  - intros H. injection H as <-. now repeat split.
  - apply process_tokens_frame.
Qed.

Lemma clamp_scale (st : state) (group v : Z) :
  let st1 := set_scale_at st group v in
  group_scale (if 100 <? scale_at st1 group then set_scale_at st1 group 100 else st1) =
  <[Z.to_nat group := Z.min v 100]> (group_scale st).
Proof.
  cbv zeta. unfold scale_at, set_scale_at. cbn [group_scale set_group_scale].
  destruct (decide (Z.to_nat group < length (group_scale st))%nat) as [Hlt | Hge].
  - rewrite list_lookup_insert_eq by exact Hlt. cbn [default from_option id].
    change (id v) with v.
    destruct (100 <? v) eqn:Hv.
    + apply Z.ltb_lt in Hv. cbn [group_scale set_group_scale].
      rewrite list_insert_insert_eq. now rewrite Z.min_r by lia.
    + apply Z.ltb_ge in Hv. cbn [group_scale set_group_scale].
      now rewrite Z.min_l by lia.
  - rewrite !(list_insert_ge (group_scale st)) by lia.
    destruct (100 <? _); reflexivity.
Qed.

(** One iteration of the loop, with what it reads from the document named. *)
Lemma readFromConfig_loop_cons (strip : strip_t) (h : heap) (top : Json)
    (group : Z) (rest : list Z) (st : state) (configComplete : bool) :
  readFromConfig_loop strip h top (group :: rest) st configComplete =
  let st1 := set_group_scale st
               (<[Z.to_nat group := loaded_scale top group]> (group_scale st)) in
  let cc1 := configComplete && fields_present top group in
  match pixel_groups st with
  | Some _ =>
      st' <- process_pixel_group_str strip (to_uint8 group)
               (loaded_pixels top group) st1 ;;
      readFromConfig_loop strip h top rest st' cc1
  | None =>
      match malloc h (getLengthPhysical strip) with
      | None => Ok (st1, false)
      | Some block =>
          st' <- process_pixel_group_str strip (to_uint8 group)
                   (loaded_pixels top group) (set_pixel_groups st1 (Some block)) ;;
          readFromConfig_loop strip h top rest st' cc1
      end
  end.
Proof.
  cbv zeta. cbn [readFromConfig_loop].
  unfold loaded_scale, loaded_pixels, fields_present.
  fold (scale_field top group). fold (pixels_field top group).
  assert (Hst : forall v,
    (if 100 <? scale_at (set_scale_at st group v) group
     then set_scale_at (set_scale_at st group v) group 100
     else set_scale_at st group v) =
    set_group_scale st (<[Z.to_nat group := Z.min v 100]> (group_scale st))).
  { intros v. pose proof (clamp_scale st group v) as Hc. cbv zeta in Hc.
    destruct (100 <? scale_at (set_scale_at st group v) group);
      cbn [set_scale_at set_group_scale group_scale] in *;
      unfold set_scale_at, set_group_scale in *; cbn in *; now rewrite Hc. }
  unfold getJsonValue_uint8, getJsonValue_String.
  destruct (isNull (scale_field top group));
    destruct (isNull (pixels_field top group));
    cbn [fst negb andb]; rewrite Hst, ?andb_true_r, ?andb_false_r;
    reflexivity.
Qed.

Lemma malloc_length (h : heap) (n : nat) (block : list Z) :
  malloc h n = Some block -> length block = n.
Proof.
  destruct h as [garbage|]; [| discriminate]. cbn. intros H.
  injection H as <-. now rewrite length_map, length_seq.
Qed.

(** With a table at hand, or a heap that provides one, the loop runs
    through all its groups. *)
Lemma readFromConfig_loop_ok (strip : strip_t) (h : heap) (top : Json)
    (gs : list Z) (st : state) (configComplete : bool) :
  table_fits strip st ->
  pixel_groups st <> None \/ h <> None ->
  exists st' ok,
    readFromConfig_loop strip h top gs st configComplete = Ok (st', ok) /\
    ok = configComplete && forallb (fields_present top) gs /\
    frame (set_group_scale st (load_scales top gs (group_scale st))) st' /\
    table_fits strip st' /\
    (pixel_groups st <> None \/ gs <> [] -> pixel_groups st' <> None).
Proof.
  revert st configComplete.
  induction gs as [|group rest IH]; intros st cc Hfits Halloc.
  - exists st, cc. cbn. rewrite andb_true_r.
    repeat split; auto. intros [H | H]; [exact H | congruence].
  - rewrite readFromConfig_loop_cons. cbv zeta.
    set (st1 := set_group_scale st
                  (<[Z.to_nat group := loaded_scale top group]> (group_scale st))).
    assert (Hnext : forall st2 block,
      pixel_groups st2 = Some block ->
      length block = getLengthPhysical strip ->
      frame st1 st2 ->
      exists st' ok,
        (st' <- process_pixel_group_str strip (to_uint8 group)
                  (loaded_pixels top group) st2 ;;
         readFromConfig_loop strip h top rest st' (cc && fields_present top group))
        = Ok (st', ok) /\
        ok = cc && forallb (fields_present top) (group :: rest) /\
        frame (set_group_scale st
                 (load_scales top (group :: rest) (group_scale st))) st' /\
        table_fits strip st' /\
        (pixel_groups st <> None \/ group :: rest <> [] -> pixel_groups st' <> None)).
    { intros st2 block Hb Hlen (He & Hi & Hl & Hg).
      destruct (process_pixel_group_str_ok strip (to_uint8 group)
                  (loaded_pixels top group) st2 block Hb)
        as (st3 & block' & -> & (He3 & Hi3 & Hl3 & Hg3) & Hb3 & Hlen3); [lia |].
      cbn [bind].
      destruct (IH st3 (cc && fields_present top group))
        as (st' & ok & Hrun & Hok & (He' & Hi' & Hl' & Hg') & Hfits' & Hsome).
      { intros b Hb'. rewrite Hb3 in Hb'. injection Hb' as <-. lia. }
      { left. now rewrite Hb3. }
      exists st', ok. split; [exact Hrun |]. split.
      { rewrite Hok. cbn [forallb]. now rewrite andb_assoc. }
      split; [| split; [exact Hfits' |]].
      - unfold frame. subst st1.
        cbn [enabled initDone lastTime group_scale set_group_scale] in *.
        repeat split; [congruence | congruence | congruence |].
        rewrite Hg', Hg3, Hg. reflexivity.
      - intros _. apply Hsome. left. now rewrite Hb3. }
    destruct (pixel_groups st) as [block|] eqn:Hb.
    + apply (Hnext st1 block); [exact Hb | now apply Hfits | now repeat split].
    + destruct Halloc as [Hc | Hh]; [contradiction |].
      destruct (malloc h (getLengthPhysical strip)) as [block|] eqn:Hm.
      * apply (Hnext (set_pixel_groups st1 (Some block)) block);
          [reflexivity | now apply malloc_length in Hm | now repeat split].
      * destruct h; [discriminate Hm | contradiction].
Qed.

(** Without a table and with a heap that refuses, the first iteration
    returns false once it has stored its scale. *)
Lemma readFromConfig_loop_alloc_fails (strip : strip_t) (top : Json)
    (group : Z) (rest : list Z) (st : state) (configComplete : bool) :
  pixel_groups st = None ->
  readFromConfig_loop strip None top (group :: rest) st configComplete =
  Ok (set_group_scale st
        (<[Z.to_nat group := loaded_scale top group]> (group_scale st)), false).
Proof. intros Hb. rewrite readFromConfig_loop_cons. cbv zeta. now rewrite Hb. Qed.

(** Before [setup()] the loop decodes nothing: the table it leaves is the
    one it found, or the block [malloc] handed out, as it was. *)
Lemma readFromConfig_loop_uninit (strip : strip_t) (h : heap) (top : Json)
    (gs : list Z) (st : state) (configComplete : bool) :
  initDone st = false ->
  exists st' ok,
    readFromConfig_loop strip h top gs st configComplete = Ok (st', ok) /\
    initDone st' = false /\
    pixel_groups st' =
      match gs, pixel_groups st with
      | _ :: _, None => malloc h (getLengthPhysical strip)
      | _, p => p
      end.
Proof.
  revert st configComplete.
  induction gs as [|group rest IH]; intros st cc Hinit.
  - exists st, cc. split; [reflexivity |]. split; [exact Hinit |].
    now destruct (pixel_groups st).
  - rewrite readFromConfig_loop_cons. cbv zeta.
    set (st1 := set_group_scale st
                  (<[Z.to_nat group := loaded_scale top group]> (group_scale st))).
    destruct (pixel_groups st) as [block|] eqn:Hb.
    + rewrite process_pixel_group_str_uninit by exact Hinit. cbn [bind].
      destruct (IH st1 (cc && fields_present top group) Hinit)
        as (st' & ok & Hrun & Hinit' & Hp).
      exists st', ok. split; [exact Hrun |]. split; [exact Hinit' |].
      rewrite Hp. subst st1. cbn [pixel_groups set_group_scale]. rewrite Hb.
      now destruct rest.
    + destruct (malloc h (getLengthPhysical strip)) as [block|] eqn:Hm.
      * rewrite process_pixel_group_str_uninit by exact Hinit. cbn [bind].
        destruct (IH (set_pixel_groups st1 (Some block))
                     (cc && fields_present top group) Hinit)
          as (st' & ok & Hrun & Hinit' & Hp).
        exists st', ok. split; [exact Hrun |]. split; [exact Hinit' |].
        rewrite Hp. cbn [pixel_groups set_pixel_groups]. now destruct rest.
      * exists st1, false. split; [reflexivity |]. split; [exact Hinit | exact Hb].
Qed.

(** Whatever the loop does, it never writes [group_scale[0]]. *)
Lemma readFromConfig_loop_scale0 (strip : strip_t) (h : heap) (top : Json)
    (gs : list Z) (st st' : state) (configComplete ok : bool) :
  Forall (fun g => 1 <= g) gs ->
  readFromConfig_loop strip h top gs st configComplete = Ok (st', ok) ->
  group_scale st' !! 0%nat = group_scale st !! 0%nat.
Proof.
  revert st configComplete.
  induction gs as [|group rest IH]; intros st cc Hgs Hrun.
  - cbn in Hrun. now injection Hrun as <- _.
  - inversion Hgs as [|? ? Hg Hgs']; subst.
    rewrite readFromConfig_loop_cons in Hrun. cbv zeta in Hrun.
    set (st1 := set_group_scale st
                  (<[Z.to_nat group := loaded_scale top group]> (group_scale st)))
      in Hrun.
    assert (H1 : forall st2, group_scale st2 = group_scale st1 ->
                 group_scale st2 !! 0%nat = group_scale st !! 0%nat).
    { intros st2 ->. subst st1. cbn [group_scale set_group_scale].
      apply list_lookup_insert_ne. lia. }
    assert (Hnext : forall st2,
      (st3 <- process_pixel_group_str strip (to_uint8 group)
                (loaded_pixels top group) st2 ;;
       readFromConfig_loop strip h top rest st3 (cc && fields_present top group))
      = Ok (st', ok) ->
      group_scale st2 = group_scale st1 ->
      group_scale st' !! 0%nat = group_scale st !! 0%nat).
    { intros st2 Hr Hgr.
      destruct (process_pixel_group_str strip (to_uint8 group) _ st2)
        as [st3|] eqn:Hp; [| discriminate Hr].
      cbn [bind] in Hr. apply IH in Hr; [| exact Hgs']. rewrite Hr.
      apply process_pixel_group_str_frame in Hp as (_ & _ & _ & Hg3).
      apply H1. congruence. }
    destruct (pixel_groups st) as [block|].
    + apply (Hnext st1 Hrun). reflexivity.
    + destruct (malloc h (getLengthPhysical strip)) as [block|].
      * apply (Hnext _ Hrun). reflexivity.
      * injection Hrun as <- _. apply H1. reflexivity.
Qed.

Lemma load_scales_length (top : Json) (gs : list Z) (scales : list Z) :
  length (load_scales top gs scales) = length scales.
Proof.
  revert scales. induction gs as [|g gs IH]; intros scales; [reflexivity |].
  unfold load_scales in *. cbn [fold_left]. now rewrite IH, length_insert.
Qed.

Lemma load_scales_keeps (top : Json) (gs : list Z) (scales : list Z) (g : Z) :
  0 <= g -> Forall (fun g' => 0 <= g') gs ->
  scales !! Z.to_nat g = Some (loaded_scale top g) ->
  load_scales top gs scales !! Z.to_nat g = Some (loaded_scale top g).
Proof.
  intros Hg. revert scales.
  induction gs as [|g' gs IH]; intros scales Hgs Hs; [exact Hs |].
  inversion Hgs as [|? ? Hg' Hgs']; subst.
  change (load_scales top (g' :: gs) scales)
    with (load_scales top gs (<[Z.to_nat g' := loaded_scale top g']> scales)).
  apply IH; [exact Hgs' |].
  destruct (decide (g' = g)) as [-> | Hne].
  - apply list_lookup_insert_eq. now apply lookup_lt_Some in Hs.
  - rewrite list_lookup_insert_ne by lia. exact Hs.
Qed.

Lemma load_scales_lookup (top : Json) (gs : list Z) (scales : list Z) (g : Z) :
  Forall (fun g' => 0 <= g') gs -> In g gs ->
  (Z.to_nat g < length scales)%nat ->
  load_scales top gs scales !! Z.to_nat g = Some (loaded_scale top g).
Proof.
  revert scales. induction gs as [|g' gs IH]; intros scales Hgs Hin Hlt; [easy |].
  inversion Hgs as [|? ? Hg' Hgs']; subst.
  change (load_scales top (g' :: gs) scales)
    with (load_scales top gs (<[Z.to_nat g' := loaded_scale top g']> scales)).
  destruct (decide (g' = g)) as [-> | Hne].
  - apply load_scales_keeps; [exact Hg' | exact Hgs' |].
    now apply list_lookup_insert_eq.
  - destruct Hin as [-> | Hin]; [contradiction |].
    apply IH; [exact Hgs' | exact Hin | now rewrite length_insert].
Qed.

Lemma groups_spec (g : Z) : In g groups <-> 1 <= g <= 4.
Proof.
  change groups with [1; 2; 3; 4]. cbn [In]. lia.
Qed.

Lemma groups_nonneg : Forall (fun g => 0 <= g) groups.
Proof. apply List.Forall_forall. intros g Hg. apply groups_spec in Hg. lia. Qed.

Lemma readFromConfig_uninit (strip : strip_t) (h : heap) (root : Json)
    (st : state) :
  initDone st = false ->
  exists st' ok,
    readFromConfig strip h root st = Ok (st', ok) /\
    initDone st' = false /\
    pixel_groups st' =
      match pixel_groups st with
      | None => malloc h (getLengthPhysical strip)
      | Some block => Some block
      end.
Proof.
  intros Hinit. unfold readFromConfig.
  destruct (readFromConfig_loop_uninit strip h (config_top root) groups st
              (negb (isNull (config_top root))) Hinit)
    as (st' & ok & Hrun & Hinit' & Hp).
  exists st', ok. split; [exact Hrun |]. split; [exact Hinit' |].
  rewrite Hp. change groups with [1; 2; 3; 4]. now destruct (pixel_groups st).
Qed.

(** C6: before [setup()] [process_pixel_group_str] returns the state it
    was given, and a configuration load (the one at boot in particular)
    leaves the membership table undecoded: it is the table the load found
    or, when there was none, the block [malloc] returned, untouched. *)
Theorem boot_load_decodes_nothing (strip : strip_t) (h : heap) (root : Json)
    (st : state) (group : Z) (s : string) :
  initDone st = false ->
  process_pixel_group_str strip group s st = Ok st /\
  exists st' ok,
    readFromConfig strip h root st = Ok (st', ok) /\
    initDone st' = false /\
    pixel_groups st' =
      match pixel_groups st with
      | None => malloc h (getLengthPhysical strip)
      | Some block => Some block
      end.
Proof.
  intros Hinit. split; [now apply process_pixel_group_str_uninit |].
  now apply readFromConfig_uninit.
Qed.

(** C7: the first load at boot leaves in the membership table exactly the
    bytes the heap block held when [malloc] returned it; nothing sets
    them to 0. *)
Theorem first_load_keeps_malloc_contents (strip : strip_t) (garbage : nat -> Z)
    (root : Json) (scales : list Z) :
  exists st' ok,
    readFromConfig strip (Some garbage) root (constructed scales) = Ok (st', ok) /\
    pixel_groups st' =
      Some (map (fun i => to_uint8 (garbage i)) (seq 0 (getLengthPhysical strip))).
Proof.
  destruct (readFromConfig_uninit strip (Some garbage) root (constructed scales))
    as (st' & ok & Hrun & _ & Hp); [reflexivity |].
  exists st', ok. split; [exact Hrun | exact Hp].
Qed.

Lemma scale_field_number (top : Json) (g v : Z) :
  scale_field top g = JNum v ->
  loaded_scale top g = Z.min (as_uint8 (JNum v)) 100.
Proof. intros H. unfold loaded_scale, getJsonValue_uint8. now rewrite H. Qed.

(** The scale a load leaves for a group whose iteration is reached. *)
Lemma readFromConfig_scale_at (strip : strip_t) (h : heap) (root : Json)
    (st : state) (g : Z) :
  In g groups ->
  length (group_scale st) = 5%nat ->
  table_fits strip st ->
  g = 1 \/ pixel_groups st <> None \/ h <> None ->
  exists st' ok,
    readFromConfig strip h root st = Ok (st', ok) /\
    scale_at st' g = loaded_scale (config_top root) g.
Proof.
  intros Hin Hlen Hfits Halloc. unfold readFromConfig.
  fold (config_top root).
  set (top := config_top root). set (cc := negb (isNull top)).
  assert (Hg : 1 <= g <= 4) by now apply groups_spec.
  assert (Hok : pixel_groups st <> None \/ h <> None ->
    exists st' ok,
      readFromConfig_loop strip h top groups st cc = Ok (st', ok) /\
      scale_at st' g = loaded_scale top g).
  { intros Ha.
    destruct (readFromConfig_loop_ok strip h top groups st cc Hfits Ha)
      as (st' & ok & Hrun & _ & (_ & _ & _ & Hgs) & _).
    exists st', ok. split; [exact Hrun |].
    unfold scale_at. rewrite Hgs. cbn [group_scale set_group_scale].
    rewrite load_scales_lookup; [reflexivity | apply groups_nonneg | exact Hin | lia]. }
  destruct (pixel_groups st) as [block|] eqn:Hb.
  { apply Hok. left. discriminate. }
  destruct h as [garbage|].
  { apply Hok. right. discriminate. }
  destruct Halloc as [-> | [Hc | Hc]]; [| contradiction | contradiction].
  change groups with (1 :: [2; 3; 4]).
  rewrite readFromConfig_loop_alloc_fails by exact Hb.
  eexists _, _. split; [reflexivity |].
  unfold scale_at. cbn [group_scale set_group_scale].
  rewrite list_lookup_insert_eq; [reflexivity |].
  rewrite Hlen. cbn. lia.
Qed.

Lemma readFromConfig_scale_of_number (strip : strip_t) (h : heap)
    (root : Json) (st : state) (g v : Z) :
  In g groups ->
  scale_field (config_top root) g = JNum v ->
  length (group_scale st) = 5%nat ->
  table_fits strip st ->
  g = 1 \/ pixel_groups st <> None \/ h <> None ->
  exists st' ok,
    readFromConfig strip h root st = Ok (st', ok) /\
    scale_at st' g = Z.min (as_uint8 (JNum v)) 100.
Proof.
  intros Hin Hfield Hlen Hfits Halloc.
  destruct (readFromConfig_scale_at strip h root st g Hin Hlen Hfits Halloc)
    as (st' & ok & Hrun & Hs).
  rewrite (scale_field_number _ _ _ Hfield) in Hs.
  exists st', ok. now split.
Qed.

(** C8, as amended: a scale v in 0..255, the range of the unsigned byte
    it is read into, present in the document for a group 1..4 whose
    iteration the load reaches, is stored as min(v, 100). *)
Theorem readFromConfig_clamps_scale (strip : strip_t) (h : heap) (root : Json)
    (st : state) (g v : Z) :
  In g groups ->
  scale_field (config_top root) g = JNum v ->
  0 <= v <= 255 ->
  length (group_scale st) = 5%nat ->
  table_fits strip st ->
  g = 1 \/ pixel_groups st <> None \/ h <> None ->
  exists st' ok,
    readFromConfig strip h root st = Ok (st', ok) /\
    scale_at st' g = Z.min v 100.
Proof.
  intros Hin Hfield Hv Hlen Hfits Halloc.
  destruct (readFromConfig_scale_of_number strip h root st g v
              Hin Hfield Hlen Hfits Halloc) as (st' & ok & Hrun & Hs).
  exists st', ok. split; [exact Hrun |]. rewrite Hs. cbn [as_uint8].
  replace (0 <=? v) with true by (symmetry; apply Z.leb_le; lia).
  replace (v <=? 255) with true by (symmetry; apply Z.leb_le; lia).
  reflexivity.
Qed.

Lemma readFromConfig_clamps_scale_witness :
  exists st' ok,
    readFromConfig [0; 0; 0] None sample_root (constructed []) = Ok (st', ok) /\
    scale_at st' 1 = Z.min 130 100.
Proof.
  apply (readFromConfig_clamps_scale [0; 0; 0] None sample_root (constructed []) 1 130).
  - left. reflexivity.
  - reflexivity.
  - lia.
  - reflexivity.
  - intros block H. discriminate H.
  - left. reflexivity.
Defined.

(** C8, as stated, fails for a number beyond the byte: the scale 300 of
    group 1 is read into the [uint8_t] first and what is stored is not
    min(300, 100). *)
Lemma scale_300_is_not_clamped_to_100 :
  scale_field (config_top over_root) 1 = JNum 300 /\
  exists st' ok,
    readFromConfig [0; 0; 0] (Some (fun _ => 0)) over_root (constructed [])
      = Ok (st', ok) /\
    scale_at st' 1 = 0 /\
    scale_at st' 1 <> Z.min 300 100.
Proof.
  split; [reflexivity |]. eexists _, _.
  split; [vm_compute; reflexivity |]. split; [reflexivity | discriminate].
Qed.

Lemma boot_load_decodes_nothing_witness :
  initDone (constructed []) = false /\
  process_pixel_group_str [0; 0; 0] 1 "2" (constructed []) = Ok (constructed []) /\
  exists st' ok,
    readFromConfig [0; 0; 0] (Some (fun _ => 0)) sample_root (constructed [])
      = Ok (st', ok) /\
    initDone st' = false /\
    pixel_groups st' = Some [0; 0; 0].
Proof.
  split; [reflexivity |].
  apply (boot_load_decodes_nothing [0; 0; 0] (Some (fun _ => 0)) sample_root
           (constructed []) 1 "2").
  reflexivity.
Defined.

(** C10: the load gives up in one case only, a table that is missing and
    cannot be allocated: it then returns false with the first group's scale
    stored, no table and nothing else touched.  In every other case it
    runs through the four groups whatever the fields hold or lack: each
    scale is loaded, the table is there, and the result is the completeness
    of the document. *)
Theorem readFromConfig_fails_only_on_allocation (strip : strip_t) (h : heap)
    (root : Json) (st : state) :
  table_fits strip st ->
  exists st' ok,
    readFromConfig strip h root st = Ok (st', ok) /\
    frame (set_group_scale st (group_scale st')) st' /\
    match pixel_groups st, h with
    | None, None =>
        ok = false /\ pixel_groups st' = None /\
        group_scale st' =
          <[1%nat := loaded_scale (config_top root) 1]> (group_scale st)
    | _, _ =>
        ok = complete root /\ pixel_groups st' <> None /\
        group_scale st' = load_scales (config_top root) groups (group_scale st)
    end.
Proof.
  intros Hfits. unfold readFromConfig.
  fold (config_top root).
  set (top := config_top root). set (cc := negb (isNull top)).
  assert (Hok : pixel_groups st <> None \/ h <> None ->
    exists st' ok,
      readFromConfig_loop strip h top groups st cc = Ok (st', ok) /\
      frame (set_group_scale st (group_scale st')) st' /\
      ok = complete root /\ pixel_groups st' <> None /\
      group_scale st' = load_scales top groups (group_scale st)).
  { intros Ha.
    destruct (readFromConfig_loop_ok strip h top groups st cc Hfits Ha)
      as (st' & ok & Hrun & Hcc & (He & Hi & Hl & Hgs) & _ & Hsome).
    exists st', ok. split; [exact Hrun |]. split; [now repeat split |].
    split; [exact Hcc |]. split; [| exact Hgs].
    apply Hsome. right. discriminate. }
  destruct (pixel_groups st) as [block|] eqn:Hb.
  { destruct Hok as (st' & ok & Hrun & Hfr & Hrest); [left; discriminate |].
    exists st', ok. now split. }
  destruct h as [garbage|].
  { destruct Hok as (st' & ok & Hrun & Hfr & Hrest); [right; discriminate |].
    exists st', ok. now split. }
  change groups with (1 :: [2; 3; 4]).
  rewrite readFromConfig_loop_alloc_fails by exact Hb.
  eexists _, _. split; [reflexivity |].
  split; [now repeat split |].
  split; [reflexivity |]. split; [exact Hb | reflexivity].
Qed.

Lemma readFromConfig_fails_only_on_allocation_witness :
  exists st' ok,
    readFromConfig [0; 0; 0] None sample_root (constructed [7; 7; 7; 7; 7])
      = Ok (st', ok) /\
    frame (set_group_scale (constructed [7; 7; 7; 7; 7]) (group_scale st')) st' /\
    ok = false /\ pixel_groups st' = None /\
    group_scale st' = [7; 100; 7; 7; 7].
Proof.
  apply (readFromConfig_fails_only_on_allocation [0; 0; 0] None sample_root
           (constructed [7; 7; 7; 7; 7])).
  intros block H. discriminate H.
Defined.

Example load_runs_through_all_groups :
  exists st' ok,
    readFromConfig [0; 0; 0] (Some (fun _ => 0)) sample_root
      (setup (constructed [7; 7; 7; 7; 7])) = Ok (st', ok) /\
    ok = true /\ group_scale st' = [100; 100; 50; 0; 100] /\
    pixel_groups st' = Some [2; 1; 4].
Proof. eexists _, _. vm_compute. repeat split. Qed.

(** ** The default group's scale *)

Lemma readFromConfig_keeps_scale0 (strip : strip_t) (h : heap) (root : Json)
    (st st' : state) (ok : bool) :
  readFromConfig strip h root st = Ok (st', ok) ->
  group_scale st' !! 0%nat = group_scale st !! 0%nat.
Proof.
  unfold readFromConfig. apply readFromConfig_loop_scale0.
  apply List.Forall_forall. intros g Hg. apply groups_spec in Hg. lia.
Qed.

Lemma step_keeps_scale0 (o : op) (st st' : state) (strip strip' : strip_t) :
  step o (st, strip) = Ok (st', strip') ->
  group_scale st !! 0%nat = Some 100 ->
  group_scale st' !! 0%nat = Some 100.
Proof.
  intros Hstep H0. destruct o; cbn [step] in Hstep.
  - injection Hstep as <- _. cbn. apply list_lookup_insert_eq.
    now apply lookup_lt_Some in H0.
  - injection Hstep as <- _. unfold loop.
    destruct (negb (enabled st) || isUpdating); [exact H0 |].
    destruct (1000 <? _); exact H0.
  - injection Hstep as <- _. exact H0.
  - injection Hstep as <- _. exact H0.
  - destruct (addToConfig strip root st); [| discriminate Hstep].
    injection Hstep as <- _. exact H0.
  - destruct (readFromConfig strip h root st) as [[st1 ok]|] eqn:Hr;
      [| discriminate Hstep].
    injection Hstep as <- _. cbn [fst].
    apply readFromConfig_keeps_scale0 in Hr. now rewrite Hr.
  - injection Hstep as <- _. exact H0.
  - destruct (handleOverlayDraw st strip); [| discriminate Hstep].
    injection Hstep as <- _. exact H0.
  - injection Hstep as <- _. exact H0.
Qed.

Lemma run_keeps_scale0 (ops : list op) (w w' : world) :
  run ops w = Ok w' ->
  group_scale (fst w) !! 0%nat = Some 100 ->
  group_scale (fst w') !! 0%nat = Some 100.
Proof.
  revert w. induction ops as [|o ops IH]; intros [st strip] Hrun H0.
  - injection Hrun as <-. exact H0.
  - cbn [run] in Hrun.
    destruct (step o (st, strip)) as [[st1 strip1]|] eqn:Hstep;
      [| discriminate Hrun].
    cbn [bind] in Hrun. apply (IH _ Hrun).
    eapply step_keeps_scale0; eassumption.
Qed.

(** C9: once [setup()] has run, [group_scale[0]] is 100 after every
    sequence of calls the host makes, whatever documents it loads. *)
Theorem default_scale_stays_100 (ops : list op) (st : state) (strip : strip_t)
    (w' : world) :
  length (group_scale st) = 5%nat ->
  run (OpSetup :: ops) (st, strip) = Ok w' ->
  scale_at (fst w') 0 = 100.
Proof.
  intros Hlen Hrun. cbn [run step bind] in Hrun.
  apply run_keeps_scale0 in Hrun.
  - unfold scale_at. change (Z.to_nat 0) with 0%nat. now rewrite Hrun.
  - cbn. apply list_lookup_insert_eq. rewrite Hlen. lia.
Qed.

Lemma default_scale_stays_100_witness :
  exists w',
    run (OpSetup :: session) (constructed [7; 7; 7; 7; 7], [255; 0; 0]) = Ok w' /\
    scale_at (fst w') 0 = 100.
Proof.
  eexists. split; [vm_compute; reflexivity |].
  apply (default_scale_stays_100 session (constructed [7; 7; 7; 7; 7]) [255; 0; 0]).
  - reflexivity.
  - vm_compute. reflexivity.
Defined.

(** ** Saving, then loading *)

Lemma assoc_get_put (key : string) (v : Json) (members : list (string * Json)) :
  assoc_get key (assoc_put key v members) = v.
Proof.
  induction members as [|[k v'] members IH]; cbn.
  - now rewrite String.eqb_refl.
  - destruct (String.eqb k key) eqn:E; cbn; now rewrite E.
Qed.

Lemma get_put (j : Json) (key : string) (v : Json) : get (put j key v) key = v.
Proof.
  destruct j; cbn; try now rewrite String.eqb_refl.
  apply assoc_get_put.
Qed.

(** What [addToConfig] writes, [readFromConfig] does not find: no group
    has a scale or a pixels field under the key the load looks up. *)
Lemma load_after_save_finds_nothing (strip : strip_t) (root root' : Json)
    (st : state) :
  addToConfig strip root st = Ok root' ->
  complete root' = false /\
  Forall (fun g => loaded_scale (config_top root') g = 100 /\
                   loaded_pixels (config_top root') g = EmptyString) groups.
Proof.
  unfold addToConfig. change groups with [1; 2; 3; 4].
  cbn [addToConfig_loop].
  destruct (generate_formatted_pixel_group strip (to_uint8 1) st) as [p1|];
    [cbn [bind] | discriminate].
  destruct (generate_formatted_pixel_group strip (to_uint8 2) st) as [p2|];
    [cbn [bind] | discriminate].
  destruct (generate_formatted_pixel_group strip (to_uint8 3) st) as [p3|];
    [cbn [bind] | discriminate].
  destruct (generate_formatted_pixel_group strip (to_uint8 4) st) as [p4|];
    [cbn [bind] | discriminate].
  intros H. injection H as <-.
  unfold complete, config_top. rewrite get_put.
  split; [vm_compute; reflexivity |].
  repeat constructor.
Qed.

(** C1: [addToConfig] writes the groups under "Group 1" .. "Group 4",
    [readFromConfig] looks them up under "group1" .. "group4"; a state
    saved and loaded again comes back with the defaults (scale 100, no
    members) and an incomplete result. *)
Theorem saved_groups_are_not_loaded :
  map groupName_save groups = ["Group 1"; "Group 2"; "Group 3"; "Group 4"]%string /\
  map groupName_load groups = ["group1"; "group2"; "group3"; "group4"]%string /\
  exists root st',
    addToConfig (replicate 5 0) (JObj []) saved_state = Ok root /\
    readFromConfig (replicate 5 0) None root (ready (replicate 5 0))
      = Ok (st', false) /\
    scale_at saved_state 2 = 50 /\ scale_at st' 2 = 100 /\
    table_members 2 saved_state = [2; 4; 5] /\ table_members 2 st' = [].
Proof.
  split; [reflexivity |]. split; [reflexivity |].
  eexists _, _. split; [vm_compute; reflexivity |].
  split; [vm_compute; reflexivity |].
  repeat split.
Qed.

(** ** The overlay's guards *)

Lemma handleOverlayDraw_guarded (st : state) (strip : strip_t) :
  initDone st = false \/ enabled st = false ->
  handleOverlayDraw st strip = Ok strip.
Proof.
  unfold handleOverlayDraw. intros [-> | ->]; [reflexivity |].
  now rewrite orb_true_r.
Qed.

(** C2: set up and enabled, the overlay does not check the table: without
    one (NULL), the first pixel's group is read through the null
    pointer. *)
Theorem handleOverlayDraw_null_table_faults (st : state) (strip : strip_t) :
  initDone st = true ->
  enabled st = true ->
  pixel_groups st = None ->
  strip <> [] ->
  handleOverlayDraw st strip = Fault NullDeref.
Proof.
  intros Hinit Hen Hnull Hstrip. unfold handleOverlayDraw.
  rewrite Hinit, Hen. cbn [negb orb].
  destruct strip as [|c strip]; [contradiction |].
  cbn [getLengthPhysical length seq overlay_loop]. now rewrite Hnull.
Qed.

Lemma handleOverlayDraw_null_table_faults_witness :
  run boot_without_heap (constructed [], [255]) = Fault NullDeref /\
  handleOverlayDraw (enable true (setup (constructed []))) [255] = Fault NullDeref.
Proof.
  split; [reflexivity |].
  apply (handleOverlayDraw_null_table_faults
           (enable true (setup (constructed []))) [255]).
  - reflexivity.
  - reflexivity.
  - reflexivity.
  - discriminate.
Defined.

(** ** Tokens beyond the byte range *)

(** What decides is the byte kept of [atoi]'s result, not the result. *)
Lemma process_tokens_stores (strip : strip_t) (group : Z) (token : string)
    (rest : list string) (st : state) (block : list Z) :
  pixel_groups st = Some block ->
  1 <= to_uint8 (atoi token) <= Z.of_nat (getLengthPhysical strip) ->
  (getLengthPhysical strip <= length block)%nat ->
  process_tokens strip group (token :: rest) st =
  process_tokens strip group rest
    (set_pixel_groups st
       (Some (<[Z.to_nat (to_uint8 (atoi token) - 1) := group]> block))).
Proof.
  intros Hb Hpixel Hlen. cbn [process_tokens].
  replace (to_uint8 (atoi token) =? 0) with false
    by (symmetry; apply Z.eqb_neq; lia).
  replace (to_uint8 (atoi token) <=? Z.of_nat (getLengthPhysical strip))
    with true by (symmetry; apply Z.leb_le; lia).
  cbn [negb andb]. rewrite Hb. cbn [deref bind]. unfold store.
  replace (Z.to_nat (to_uint8 (atoi token) - 1) <? length block)%nat with true
    by (symmetry; apply Nat.ltb_lt; lia).
  reflexivity.
Qed.

Example tokens_tolerated :
  process_pixel_group_str (replicate 10 0) 4 "0,x,,11,255"
    (ready (replicate 10 0)) = Ok (ready (replicate 10 0)).
Proof. reflexivity. Qed.

(** A token beyond [int] reads as the bound and is passed over. *)
Example token_beyond_int :
  atoi "9223372036854775809" = INT_MAX /\
  process_pixel_group_str (replicate 10 0) 4 "9223372036854775809"
    (ready (replicate 10 0)) = Ok (ready (replicate 10 0)).
Proof. split; reflexivity. Qed.

(** The third end-to-end scenario of the specification. *)
Example decode_1_99 :
  process_pixel_group_str (replicate 10 0) 4 "1,99" (ready (replicate 10 0))
    = Ok (ready (4 :: replicate 9 0)) /\
  generate_formatted_pixel_group (replicate 10 0) 4 (ready (4 :: replicate 9 0))
    = Ok "1"%string.
Proof. split; reflexivity. Qed.

(** On a strip of 300 pixels the number of pixel 300 comes back as 44. *)
Example roundtrip_fails_beyond_255 :
  generate_formatted_pixel_group (replicate 300 0) 1
    (ready (replicate 299 0 ++ [1])) = Ok "300"%string /\
  process_pixel_group_str (replicate 300 0) 1 "300"
    (ready (default_table (replicate 300 0)))
    = Ok (ready (replicate 43 0 ++ [1] ++ replicate 256 0)).
Proof. split; vm_compute; reflexivity. Qed.

(** C4: a token above 255 is not compared with the pixel count as it
    stands: "257" on a strip of ten pixels is cut to the byte 1 and pixel 1
    is given the group. *)
Theorem token_above_255_wraps :
  atoi "257" = 257 /\
  Z.of_nat (getLengthPhysical (replicate 10 0)) < atoi "257" /\
  process_pixel_group_str (replicate 10 0) 4 "257" (ready (replicate 10 0))
    = Ok (ready (4 :: replicate 9 0)).
Proof. repeat split. Qed.

(** ** Colours *)

Lemma to_uint8_testbit (v i : Z) :
  Z.testbit (to_uint8 v) i = (0 <=? i) && (i <? 8) && Z.testbit v i.
Proof.
  destruct (Z.leb_spec 0 i) as [Hi | Hi].
  - unfold to_uint8. change 256 with (2 ^ 8).
    now rewrite Z.testbit_mod_pow2 by lia.
  - now rewrite Z.testbit_neg_r by lia.
Qed.

Lemma testbit_uint32 (c n : Z) :
  0 <= c < 2 ^ 32 -> 32 <= n -> Z.testbit c n = false.
Proof.
  intros Hc Hn. rewrite <- (Z.mod_small c (2 ^ 32)) by exact Hc.
  rewrite Z.testbit_mod_pow2 by lia.
  replace (n <? 32) with false by (symmetry; apply Z.ltb_ge; lia).
  reflexivity.
Qed.

Ltac unpack_bits :=
  unfold RGBW32, W, R, G, B;
  repeat (rewrite ?to_uint8_testbit, ?Z.lor_spec; 
          first [ rewrite Z.shiftl_spec by lia | rewrite Z.shiftr_spec by lia ]);
  rewrite ?to_uint8_testbit, ?Z.lor_spec.

Ltac split_ranges :=
  repeat match goal with
         | |- context [?a <? ?b] => destruct (Z.ltb_spec a b)
         | |- context [?a <=? ?b] => destruct (Z.leb_spec a b)
         end;
  cbn [andb orb]; rewrite ?orb_false_r; try lia;
  try reflexivity; try (f_equal; lia).

Lemma W_RGBW32 (r g b w : Z) : W (RGBW32 r g b w) = to_uint8 w.
Proof. apply Z.bits_inj'. intros n Hn. unpack_bits. split_ranges. Qed.

Lemma R_RGBW32 (r g b w : Z) : R (RGBW32 r g b w) = to_uint8 r.
Proof. apply Z.bits_inj'. intros n Hn. unpack_bits. split_ranges. Qed.

Lemma G_RGBW32 (r g b w : Z) : G (RGBW32 r g b w) = to_uint8 g.
Proof. apply Z.bits_inj'. intros n Hn. unpack_bits. split_ranges. Qed.

Lemma B_RGBW32 (r g b w : Z) : B (RGBW32 r g b w) = to_uint8 b.
Proof. apply Z.bits_inj'. intros n Hn. unpack_bits. split_ranges. Qed.

(** A 32-bit colour is the packing of its four channels. *)
Lemma RGBW32_channels (c : Z) :
  0 <= c < 2 ^ 32 -> RGBW32 (R c) (G c) (B c) (W c) = c.
Proof.
  intros Hc. apply Z.bits_inj'. intros n Hn. unpack_bits. split_ranges.
  all: rewrite ?Z.shiftr_spec by lia; try (f_equal; lia).
  symmetry. apply testbit_uint32; [exact Hc | lia].
Qed.

Lemma to_uint8_small (v : Z) : 0 <= v <= 255 -> to_uint8 v = v.
Proof. intros H. unfold to_uint8. apply Z.mod_small. lia. Qed.

Lemma to_uint8_range (v : Z) : 0 <= to_uint8 v <= 255.
Proof. unfold to_uint8. pose proof (Z.mod_pos_bound v 256). lia. Qed.

(** Multiply, divide by 100, drop the fraction: no wrap for a scale of at
    most 100. *)
Lemma scale_channel_spec (ch scale : Z) :
  0 <= ch <= 255 -> 0 <= scale <= 100 ->
  scale_channel ch scale = ch * scale / 100 /\ 0 <= ch * scale / 100 <= 255.
Proof.
  intros Hch Hs.
  assert (H : 0 <= ch * scale / 100 <= 255).
  { split; [apply Z.div_pos; nia |].
    apply Z.le_trans with ch; [| lia].
    apply Z.div_le_upper_bound; nia. }
  split; [| exact H]. unfold scale_channel. now apply to_uint8_small.
Qed.

Lemma scaled_color_100 (c : Z) : 0 <= c < 2 ^ 32 -> scaled_color 100 c = c.
Proof.
  intros Hc. unfold scaled_color, scale_channel.
  rewrite !Z.div_mul by lia.
  assert (Hb : forall v, to_uint8 (to_uint8 v) = to_uint8 v).
  { intros v. apply to_uint8_small, to_uint8_range. }
  unfold R, G, B, W. rewrite !Hb.
  now apply RGBW32_channels.
Qed.

(** ** The overlay *)

Lemma overlay_loop_spec (st : state) (block : list Z) (pixels : list nat)
    (strip : strip_t) :
  pixel_groups st = Some block ->
  NoDup pixels ->
  Forall (fun p => exists gid s,
            block !! p = Some gid /\ group_scale st !! Z.to_nat gid = Some s)
         pixels ->
  exists strip',
    overlay_loop st pixels strip = Ok strip' /\
    length strip' = length strip /\
    forall i : nat,
      (In i pixels ->
       strip' !! i = scaled_color (pixel_scale st block i) <$> strip !! i) /\
      (~ In i pixels -> strip' !! i = strip !! i).
Proof.
  intros Hb. revert strip.
  induction pixels as [|p rest IH]; intros strip Hnd Hok.
  - exists strip. split; [reflexivity |]. split; [reflexivity |].
    intros i. split; [intros [] | reflexivity].
  - inversion Hnd as [|? ? Hnotin Hnd']; subst.
    rewrite list_elem_of_In in Hnotin.
    inversion Hok as [|? ? (gid & s & Hgid & Hs) Hok']; subst.
    cbn [overlay_loop]. rewrite Hb. cbn [deref bind].
    unfold load at 1. rewrite Hgid. cbn [bind].
    unfold load at 1. rewrite Hs. cbn [bind].
    change (RGBW32 _ _ _ _) with (scaled_color s (getPixelColor strip p)).
    destruct (IH (setPixelColor strip p (scaled_color s (getPixelColor strip p)))
                 Hnd' Hok') as (strip' & Hrun & Hlen & Hspec).
    exists strip'. split; [exact Hrun |]. split.
    { rewrite Hlen. apply length_insert. }
    assert (Hp : pixel_scale st block p = s).
    { unfold pixel_scale, scale_at. now rewrite Hgid, Hs. }
    intros i. split.
    + intros Hin. destruct (decide (i = p)) as [-> | Hne].
      * destruct (Hspec p) as [_ ->]; [| exact Hnotin].
        unfold setPixelColor, getPixelColor. rewrite Hp.
        destruct (strip !! p) as [c|] eqn:Hc.
        -- rewrite list_lookup_insert_eq by (now apply lookup_lt_Some in Hc).
           reflexivity.
        -- rewrite list_insert_ge by (now apply lookup_ge_None in Hc).
           now rewrite Hc.
      * destruct Hin as [-> | Hin]; [contradiction |].
        destruct (Hspec i) as [Hi _]. rewrite (Hi Hin).
        unfold setPixelColor. now rewrite list_lookup_insert_ne by congruence.
    + intros Hnin. destruct (Hspec i) as [_ ->].
      * unfold setPixelColor. apply list_lookup_insert_ne.
        intros ->. apply Hnin. now left.
      * intros Hin. apply Hnin. now right.
Qed.

(** C5: set up and enabled, over a table of group ids 0..4 as long as the
    strip and scales of at most 100, the overlay gives every pixel, in
    each of its four channels, the channel times the scale of the pixel's
    group, divided by 100 with the fraction dropped; a pixel whose group
    has the scale 100, any pixel of group 0 among them, keeps its colour
    bit for bit. *)
Theorem handleOverlayDraw_scales (st : state) (strip : strip_t)
    (block : list Z) :
  initDone st = true ->
  enabled st = true ->
  pixel_groups st = Some block ->
  length block = getLengthPhysical strip ->
  Forall (fun gid => 0 <= gid <= max_groups) block ->
  length (group_scale st) = 5%nat ->
  Forall (fun s => 0 <= s <= 100) (group_scale st) ->
  scale_at st 0 = 100 ->
  Forall (fun c => 0 <= c < 2 ^ 32) strip ->
  exists strip',
    handleOverlayDraw st strip = Ok strip' /\
    length strip' = length strip /\
    forall (pixel : nat) (c gid : Z),
      strip !! pixel = Some c ->
      block !! pixel = Some gid ->
      exists c',
        strip' !! pixel = Some c' /\
        R c' = R c * scale_at st gid / 100 /\
        G c' = G c * scale_at st gid / 100 /\
        B c' = B c * scale_at st gid / 100 /\
        W c' = W c * scale_at st gid / 100 /\
        (scale_at st gid = 100 -> c' = c) /\
        (gid = 0 -> c' = c).
Proof.
  intros Hinit Hen Hb Hlen Hgids Hscales Hle H0 Hcol.
  unfold handleOverlayDraw. rewrite Hinit, Hen. cbn [negb orb].
  assert (Hscale : forall gid, 0 <= gid <= max_groups ->
            exists s, group_scale st !! Z.to_nat gid = Some s /\
                      scale_at st gid = s /\ 0 <= s <= 100).
  { intros gid Hgid. unfold max_groups in Hgid.
    destruct (lookup_lt_is_Some_2 (group_scale st) (Z.to_nat gid)) as [s Hs];
      [lia |].
    exists s. split; [exact Hs |]. split; [unfold scale_at; now rewrite Hs |].
    rewrite List.Forall_forall in Hle. apply Hle.
    apply list_elem_of_In. eapply list_elem_of_lookup_2. exact Hs. }
  destruct (overlay_loop_spec st block (seq 0 (getLengthPhysical strip)) strip Hb)
    as (strip' & Hrun & Hlen' & Hspec).
  { apply NoDup_seq. }
  { apply List.Forall_forall. intros p Hp. apply in_seq in Hp.
    destruct (lookup_lt_is_Some_2 block p) as [gid Hgid]; [lia |].
    rewrite List.Forall_forall in Hgids.
    destruct (Hscale gid) as (s & Hs & _).
    { apply Hgids. apply list_elem_of_In. eapply list_elem_of_lookup_2. exact Hgid. }
    exists gid, s. now split. }
  exists strip'. split; [exact Hrun |]. split; [exact Hlen' |].
  intros pixel c gid Hc Hgid.
  assert (Hgr : 0 <= gid <= max_groups).
  { rewrite List.Forall_forall in Hgids. apply Hgids.
    apply list_elem_of_In. eapply list_elem_of_lookup_2. exact Hgid. }
  destruct (Hscale gid Hgr) as (s & _ & Hs & Hsr).
  assert (Hcr : 0 <= c < 2 ^ 32).
  { rewrite List.Forall_forall in Hcol. apply Hcol.
    apply list_elem_of_In. eapply list_elem_of_lookup_2. exact Hc. }
  destruct (Hspec pixel) as [Hin _].
  exists (scaled_color s c). split.
  { rewrite Hin by (apply in_seq; apply lookup_lt_Some in Hc;
                    unfold getLengthPhysical; lia).
    rewrite Hc. unfold pixel_scale. now rewrite Hgid, Hs. }
  rewrite Hs.
  assert (Hch : forall ch, 0 <= ch <= 255 ->
            to_uint8 (scale_channel ch s) = ch * s / 100).
  { intros ch Hch. destruct (scale_channel_spec ch s Hch Hsr) as [-> Hr].
    now apply to_uint8_small. }
  unfold scaled_color at 1 2 3 4.
  rewrite R_RGBW32, G_RGBW32, B_RGBW32, W_RGBW32.
  rewrite !Hch by (unfold R, G, B, W; apply to_uint8_range).
  split; [reflexivity |]. split; [reflexivity |].
  split; [reflexivity |]. split; [reflexivity |].
  split.
  - intros ->. now apply scaled_color_100.
  - intros ->. rewrite H0 in Hs. subst s. now apply scaled_color_100.
Qed.

Lemma handleOverlayDraw_scales_witness :
  exists strip',
    handleOverlayDraw half_state grey_strip = Ok strip' /\
    length strip' = length grey_strip /\
    forall (pixel : nat) (c gid : Z),
      grey_strip !! pixel = Some c ->
      [2; 0; 2; 0; 2] !! pixel = Some gid ->
      exists c',
        strip' !! pixel = Some c' /\
        R c' = R c * scale_at half_state gid / 100 /\
        G c' = G c * scale_at half_state gid / 100 /\
        B c' = B c * scale_at half_state gid / 100 /\
        W c' = W c * scale_at half_state gid / 100 /\
        (scale_at half_state gid = 100 -> c' = c) /\
        (gid = 0 -> c' = c).
Proof.
  apply (handleOverlayDraw_scales half_state grey_strip [2; 0; 2; 0; 2]).
  - reflexivity.
  - reflexivity.
  - reflexivity.
  - reflexivity.
  - repeat (apply List.Forall_cons; [unfold max_groups; lia |]).
    apply List.Forall_nil.
  - reflexivity.
  - repeat (apply List.Forall_cons; [lia |]). apply List.Forall_nil.
  - reflexivity.
  - repeat (apply List.Forall_cons; [vm_compute; split; congruence |]).
    apply List.Forall_nil.
Defined.

Example overlay_halves_group_2 :
  handleOverlayDraw half_state grey_strip =
  Ok [RGBW32 100 100 100 100; RGBW32 200 200 200 200; RGBW32 100 100 100 100;
      RGBW32 200 200 200 200; RGBW32 100 100 100 100].
Proof. reflexivity. Qed.

Example overlay_drops_the_fraction :
  scale_channel 255 50 = 127 /\ scale_channel 199 99 = 197 /\
  scale_channel 1 99 = 0.
Proof. repeat split. Qed.

(** * Further properties *)

(** ** What the decoder writes *)

Lemma token_names_pixel (strip : strip_t) (i : nat) (token : string) :
  token_names strip i token = true <->
  to_uint8 (atoi token) = Z.of_nat i + 1 /\
  to_uint8 (atoi token) <= Z.of_nat (getLengthPhysical strip).
Proof.
  unfold token_names. cbv zeta.
  rewrite andb_true_iff, Z.eqb_eq, Z.leb_le. reflexivity.
Qed.

Lemma process_tokens_lookup (strip : strip_t) (group : Z)
    (tokens : list string) (st : state) (block : list Z) :
  pixel_groups st = Some block ->
  (getLengthPhysical strip <= length block)%nat ->
  exists block',
    process_tokens strip group tokens st = Ok (set_pixel_groups st (Some block')) /\
    length block' = length block /\
    forall i : nat,
      block' !! i =
      if existsb (token_names strip i) tokens then Some group else block !! i.
Proof.
  revert st block. induction tokens as [|token rest IH]; intros st block Hb Hlen.
  - exists block. split; [| split; [reflexivity | reflexivity]].
    cbn. destruct st; cbn in *. now rewrite Hb.
  - set (pixel := to_uint8 (atoi token)).
    assert (Hpos : 0 <= pixel) by (apply Z.mod_pos_bound; lia).
    destruct (Z.eq_dec pixel 0) as [Hz | Hnz];
      [| destruct (Z_le_gt_dec pixel (Z.of_nat (getLengthPhysical strip)))
           as [Hle | Hgt]].
    + rewrite process_tokens_skip by (left; exact Hz).
      destruct (IH st block Hb Hlen) as (block' & Hrun & Hlen' & Hspec).
      exists block'. split; [exact Hrun |]. split; [exact Hlen' |].
      intros i. rewrite Hspec. cbn [existsb].
      replace (token_names strip i token) with false; [reflexivity |].
      symmetry. apply not_true_iff_false. rewrite token_names_pixel.
      fold pixel. lia.
    + rewrite (process_tokens_stores strip group token rest st block Hb)
        by (fold pixel; lia).
      fold pixel.
      destruct (IH (set_pixel_groups st
                      (Some (<[Z.to_nat (pixel - 1) := group]> block)))
                   (<[Z.to_nat (pixel - 1) := group]> block))
        as (block' & Hrun & Hlen' & Hspec);
        [reflexivity | now rewrite length_insert |].
      exists block'. split; [exact Hrun |].
      split; [now rewrite Hlen', length_insert |].
      intros i. rewrite Hspec. cbn [existsb].
      destruct (existsb (token_names strip i) rest);
        [now rewrite orb_true_r |].
      rewrite orb_false_r.
      destruct (token_names strip i token) eqn:Hn.
      * apply token_names_pixel in Hn as [Hn _]. fold pixel in Hn.
        replace (Z.to_nat (pixel - 1)) with i by lia.
        apply list_lookup_insert_eq. lia.
      * apply list_lookup_insert_ne. intros <-.
        apply not_true_iff_false in Hn. apply Hn.
        apply token_names_pixel. fold pixel. lia.
    + rewrite process_tokens_skip by (right; fold pixel; lia).
      destruct (IH st block Hb Hlen) as (block' & Hrun & Hlen' & Hspec).
      exists block'. split; [exact Hrun |]. split; [exact Hlen' |].
      intros i. rewrite Hspec. cbn [existsb].
      replace (token_names strip i token) with false; [reflexivity |].
      symmetry. apply not_true_iff_false. rewrite token_names_pixel.
      fold pixel. lia.
Qed.

Lemma decode_lookup (strip : strip_t) (group : Z) (s : string) (st : state)
    (block : list Z) :
  initDone st = true ->
  pixel_groups st = Some block ->
  (getLengthPhysical strip <= length block)%nat ->
  exists block',
    process_pixel_group_str strip group s st
      = Ok (set_pixel_groups st (Some block')) /\
    length block' = length block /\
    forall i : nat,
      block' !! i = if names strip s i then Some group else block !! i.
Proof.
  intros Hinit Hb Hlen. unfold process_pixel_group_str. rewrite Hinit.
  cbn [negb]. now apply process_tokens_lookup.
Qed.

Lemma names_lists_pixel (strip : strip_t) (s : string) (i : nat) :
  tokens_fit_int s = true -> names strip s i = lists_pixel strip s i.
Proof.
  unfold tokens_fit_int, names, lists_pixel.
  induction (strtok_all s) as [|token rest IH]; intros H; [reflexivity |].
  cbn [forallb] in H. apply andb_prop in H as [Hfit Hrest].
  cbn [existsb]. rewrite IH by exact Hrest. f_equal.
  unfold token_names, holds_number. rewrite atoi_fits; [reflexivity |].
  unfold fits_int in Hfit. apply andb_prop in Hfit as [Hlo Hhi].
  apply Z.leb_le in Hlo, Hhi. now split.
Qed.

(** X1: decoding a text whose tokens hold numbers that fit an [int] into
    a table at least as long as the strip returns without fault and
    changes the table in one way only: once [setup()] has run, the entry
    of every pixel whose number some token holds (after the cut to a byte)
    becomes the group; every other entry, the table's length and the rest
    of the state stay as they were. *)
Theorem process_pixel_group_str_lookup (strip : strip_t) (group : Z)
    (s : string) (st : state) (block : list Z) :
  tokens_fit_int s = true ->
  pixel_groups st = Some block ->
  (getLengthPhysical strip <= length block)%nat ->
  exists st' block',
    process_pixel_group_str strip group s st = Ok st' /\
    frame st st' /\
    pixel_groups st' = Some block' /\
    length block' = length block /\
    forall i : nat,
      block' !! i =
      if initDone st && lists_pixel strip s i then Some group else block !! i.
Proof.
  intros Hfit Hb Hlen. destruct (initDone st) eqn:Hinit.
  - destruct (decode_lookup strip group s st block Hinit Hb Hlen)
      as (block' & Hrun & Hlen' & Hspec).
    exists (set_pixel_groups st (Some block')), block'.
    split; [exact Hrun |]. split; [now repeat split |].
    split; [reflexivity |]. split; [exact Hlen' |].
    intros i. rewrite Hspec. now rewrite names_lists_pixel.
  - exists st, block. split; [now apply process_pixel_group_str_uninit |].
    split; [now repeat split |]. split; [exact Hb |]. now split.
Qed.

Lemma process_pixel_group_str_lookup_witness :
  exists st' block',
    process_pixel_group_str (replicate 5 0) 3 "2,9,x,5,2" (ready [1; 1; 1; 1; 1])
      = Ok st' /\
    frame (ready [1; 1; 1; 1; 1]) st' /\
    pixel_groups st' = Some block' /\
    length block' = 5%nat /\
    forall i : nat,
      block' !! i =
      if lists_pixel (replicate 5 0) "2,9,x,5,2" i then Some 3
      else [1; 1; 1; 1; 1] !! i.
Proof.
  apply (process_pixel_group_str_lookup (replicate 5 0) 3 "2,9,x,5,2"
           (ready [1; 1; 1; 1; 1]) [1; 1; 1; 1; 1]).
  - reflexivity.
  - reflexivity.
  - vm_compute. lia.
Defined.

(** X2: decoding is idempotent: decoding the same text for the same group
    a second time changes nothing. *)
Theorem process_pixel_group_str_idempotent (strip : strip_t) (group : Z)
    (s : string) (st : state) (block : list Z) :
  pixel_groups st = Some block ->
  (getLengthPhysical strip <= length block)%nat ->
  exists st',
    process_pixel_group_str strip group s st = Ok st' /\
    process_pixel_group_str strip group s st' = Ok st'.
Proof.
  intros Hb Hlen. destruct (initDone st) eqn:Hinit.
  - destruct (decode_lookup strip group s st block Hinit Hb Hlen)
      as (block' & Hrun & Hlen' & Hspec).
    exists (set_pixel_groups st (Some block')). split; [exact Hrun |].
    destruct (decode_lookup strip group s (set_pixel_groups st (Some block'))
                block') as (block'' & Hrun' & _ & Hspec');
      [exact Hinit | reflexivity | lia |].
    rewrite Hrun'. do 2 f_equal.
    replace block'' with block'; [reflexivity |].
    apply list_eq. intros i. rewrite Hspec', Hspec.
    now destruct (names strip s i).
  - exists st. split; now apply process_pixel_group_str_uninit.
Qed.

Lemma process_pixel_group_str_idempotent_witness :
  exists st',
    process_pixel_group_str (replicate 5 0) 3 "2,9,x,5,2" (ready [1; 1; 1; 1; 1])
      = Ok st' /\
    process_pixel_group_str (replicate 5 0) 3 "2,9,x,5,2" st' = Ok st'.
Proof.
  apply (process_pixel_group_str_idempotent (replicate 5 0) 3 "2,9,x,5,2"
           (ready [1; 1; 1; 1; 1]) [1; 1; 1; 1; 1]).
  - reflexivity.
  - vm_compute. lia.
Defined.

(** X3: decoding a text whose tokens hold numbers that fit an [int]
    into a table of zeroes and encoding the group again gives the
    canonical text: the numbers of the pixels the text lists, each once,
    in ascending order, with what the decoder passes over left out. *)
Theorem decode_then_encode (strip : strip_t) (group : Z) (s : string)
    (dst : state) :
  tokens_fit_int s = true ->
  initDone dst = true ->
  pixel_groups dst = Some (default_table strip) ->
  group <> 0 ->
  exists dst',
    process_pixel_group_str strip group s dst = Ok dst' /\
    generate_formatted_pixel_group strip group dst' =
    Ok (render false
          (map number
             (List.filter (lists_pixel strip s)
                (seq 0 (getLengthPhysical strip))))).
Proof.
  intros Hfit Hinit Hb Hg.
  destruct (decode_lookup strip group s dst (default_table strip) Hinit Hb)
    as (block' & Hrun & Hlen' & Hspec).
  { unfold default_table. now rewrite length_replicate. }
  unfold default_table in Hlen'. rewrite length_replicate in Hlen'.
  exists (set_pixel_groups dst (Some block')). split; [exact Hrun |].
  rewrite (generate_formatted_pixel_group_spec strip group _ block');
    [| reflexivity | exact Hlen'].
  do 2 f_equal. unfold members, selected. rewrite Hlen'. f_equal.
  apply filter_ext_in. intros p Hp. apply in_seq in Hp.
  rewrite Hspec, names_lists_pixel by exact Hfit.
  destruct (lists_pixel strip s p).
  - change (default 0 (Some group)) with group. apply Z.eqb_refl.
  - unfold default_table. rewrite lookup_replicate_2 by lia.
    change (default 0 (Some 0)) with 0. apply Z.eqb_neq. lia.
Qed.

Lemma decode_then_encode_witness :
  exists dst',
    process_pixel_group_str (replicate 10 0) 4 "7,1,99,1, 3,x,263"
      (ready (default_table (replicate 10 0))) = Ok dst' /\
    generate_formatted_pixel_group (replicate 10 0) 4 dst' = Ok "1,3,7"%string.
Proof.
  apply (decode_then_encode (replicate 10 0) 4 "7,1,99,1, 3,x,263"
           (ready (default_table (replicate 10 0)))).
  - reflexivity.
  - reflexivity.
  - reflexivity.
  - discriminate.
Defined.

(** ** What the encoder prints *)

Lemma selected_sorted (block : list Z) (group : Z) (n a : nat) :
  StronglySorted Z.lt (map number (selected block group (seq a n))) /\
  Forall (fun m => Z.of_nat a < m) (map number (selected block group (seq a n))).
Proof.
  revert a. induction n as [|n IH]; intros a.
  - split; constructor.
  - destruct (IH (S a)) as [Hs Hf].
    assert (Hf' : Forall (fun m => Z.of_nat a + 1 < m)
                    (map number (selected block group (seq (S a) n)))).
    { eapply List.Forall_impl; [| exact Hf]. cbn beta. intros m Hm. lia. }
    change (selected block group (seq a (S n)))
      with (if default 0 (block !! a) =? group
            then a :: selected block group (seq (S a) n)
            else selected block group (seq (S a) n)).
    destruct (default 0 (block !! a) =? group).
    + cbn [map]. split.
      * constructor; [exact Hs | exact Hf'].
      * constructor; [unfold number; lia |].
        eapply List.Forall_impl; [| exact Hf']. cbn beta. intros m Hm. lia.
    + split; [exact Hs |].
      eapply List.Forall_impl; [| exact Hf']. cbn beta. intros m Hm. lia.
Qed.

Lemma members_spec (group : Z) (block : list Z) (m : Z) :
  In m (members group block) <->
  1 <= m <= Z.of_nat (length block) /\ block !! Z.to_nat (m - 1) = Some group.
Proof.
  unfold members. rewrite in_map_iff. split.
  - intros (p & <- & Hp). apply selected_bound in Hp as [Hp Hv].
    replace (Z.to_nat (number p - 1)) with p by (unfold number; lia).
    split; [unfold number; lia |].
    destruct (lookup_lt_is_Some_2 block p Hp) as [v Hl].
    rewrite Hl in Hv |- *. cbn in Hv. now subst v.
  - intros [Hm Hl]. exists (Z.to_nat (m - 1)). split; [unfold number; lia |].
    unfold selected. apply filter_In. split; [apply in_seq; lia |].
    rewrite Hl. apply Z.eqb_refl.
Qed.

Lemma map_atoi_decs (ms : list Z) :
  Forall (fun m => 0 <= m <= INT_MAX) ms -> map atoi (map String_dec ms) = ms.
Proof.
  induction 1 as [|m ms Hm _ IH]; [reflexivity |].
  cbn [map]. rewrite IH. f_equal. now apply atoi_String_dec.
Qed.

(** X4: over a table as long as the strip, the encoder returns a text
    without an empty field (no leading, trailing or doubled comma; the
    empty text when the group has no pixel) whose tokens read, with
    [atoi], as strictly ascending numbers: exactly the 1-based numbers of
    the pixels the table assigns to the group. *)
Theorem generate_formatted_pixel_group_format (strip : strip_t) (group : Z)
    (st : state) (block : list Z) :
  pixel_groups st = Some block ->
  length block = getLengthPhysical strip ->
  Z.of_nat (getLengthPhysical strip) < 65536 ->
  exists s,
    generate_formatted_pixel_group strip group st = Ok s /\
    (s = EmptyString \/ fields s = strtok_all s) /\
    StronglySorted Z.lt (map atoi (strtok_all s)) /\
    forall m : Z,
      In m (map atoi (strtok_all s)) <->
      1 <= m <= Z.of_nat (getLengthPhysical strip) /\
      block !! Z.to_nat (m - 1) = Some group.
Proof.
  intros Hb Hlen Hshort.
  exists (render false (members group block)).
  split; [now apply generate_formatted_pixel_group_spec |].
  assert (Hms : Forall (fun m => 0 <= m < 10 ^ 10) (members group block)).
  { eapply List.Forall_impl; [| apply members_bound]. cbn beta.
    intros m Hm. rewrite Hlen in Hm. lia. }
  rewrite strtok_all_render by exact Hms.
  rewrite map_atoi_decs.
  2: { eapply List.Forall_impl; [| apply members_bound]. cbn beta.
       unfold INT_MAX. intros m Hm. rewrite Hlen in Hm. lia. }
  split; [| split].
  - destruct (members group block) as [|m ms] eqn:E; [now left |].
    right. inversion Hms as [|? ? Hm Hms']; subst.
    cbn [render]. change (String.append EmptyString ?x) with x.
    apply fields_render; [| exact Hms'].
    apply all_digits_comma_free. now apply String_dec_spec.
  - apply selected_sorted.
  - intros m. rewrite members_spec, Hlen. reflexivity.
Qed.

Lemma generate_formatted_pixel_group_format_witness :
  exists s,
    generate_formatted_pixel_group grey_strip 2 half_state = Ok s /\
    (s = EmptyString \/ fields s = strtok_all s) /\
    StronglySorted Z.lt (map atoi (strtok_all s)) /\
    forall m : Z,
      In m (map atoi (strtok_all s)) <->
      1 <= m <= Z.of_nat (getLengthPhysical grey_strip) /\
      [2; 0; 2; 0; 2] !! Z.to_nat (m - 1) = Some 2.
Proof.
  apply (generate_formatted_pixel_group_format grey_strip 2 half_state
           [2; 0; 2; 0; 2]).
  - reflexivity.
  - reflexivity.
  - reflexivity.
Defined.

(** ** The keys of the groups *)

(** X5: for a group number 0..9 the key [addToConfig] builds by patching
    a character is "Group " followed by the decimal numeral, the key
    [readFromConfig] builds is "group" followed by it, and the two keys
    differ. *)
Theorem group_keys (g : Z) :
  0 <= g <= 9 ->
  groupName_save g = String.append "Group " (String_dec g) /\
  groupName_load g = String.append "group" (String_dec g) /\
  groupName_save g <> groupName_load g.
Proof.
  intros H.
  assert (Hg : g = 0 \/ g = 1 \/ g = 2 \/ g = 3 \/ g = 4 \/
               g = 5 \/ g = 6 \/ g = 7 \/ g = 8 \/ g = 9) by lia.
  repeat (destruct Hg as [-> | Hg];
          [split; [reflexivity | split; [reflexivity | discriminate]] |]).
  subst g. split; [reflexivity | split; [reflexivity | discriminate]].
Qed.

Lemma group_keys_witness :
  groupName_save 3 = "Group 3"%string /\
  groupName_load 3 = "group3"%string /\
  groupName_save 3 <> groupName_load 3.
Proof. apply (group_keys 3). lia. Defined.

(** Beyond 9 the patched character is no digit. *)
Example group_key_10 :
  groupName_load 10 = "group:"%string /\ groupName_save 10 = "Group :"%string.
Proof. split; reflexivity. Qed.

(** ** The settings page metadata *)

Lemma concat_empty_cons (x : string) (l : list string) :
  String.concat EmptyString (x :: l) =
  String.append x (String.concat EmptyString l).
Proof. destruct l; cbn; [now rewrite append_empty_r | reflexivity]. Qed.

Lemma concat_empty_app (l1 l2 : list string) :
  String.concat EmptyString (l1 ++ l2) =
  String.append (String.concat EmptyString l1) (String.concat EmptyString l2).
Proof.
  induction l1 as [|x l1 IH]; [reflexivity |].
  change ((x :: l1) ++ l2) with (x :: (l1 ++ l2)).
  now rewrite !concat_empty_cons, IH, append_assoc.
Qed.

(** X6: for groups numbered 0..9, the text [appendConfigData] hands to
    the settings page is, group after group, an [addInfo] entry for the
    scale and one for the pixels whose field paths are the usermod's name,
    the key [readFromConfig] reads for the group, and the field's name. *)
Theorem appendConfigData_text (gs : list Z) :
  Forall (fun g => 0 <= g <= 9) gs ->
  String.concat EmptyString (appendConfigData_loop gs) =
  String.concat EmptyString (map (fun g => info_text (groupName_load g)) gs).
Proof.
  induction 1 as [|g gs Hg _ IH]; [reflexivity |].
  cbn [appendConfigData_loop map].
  rewrite concat_empty_app.
  rewrite (concat_empty_cons (info_text (groupName_load g))).
  rewrite IH. f_equal.
  assert (Hd : g = 0 \/ g = 1 \/ g = 2 \/ g = 3 \/ g = 4 \/
               g = 5 \/ g = 6 \/ g = 7 \/ g = 8 \/ g = 9) by lia.
  repeat (destruct Hd as [-> | Hd]; [vm_compute; reflexivity |]).
  subst g. vm_compute. reflexivity.
Qed.

Lemma appendConfigData_text_witness :
  String.concat EmptyString appendConfigData =
  String.concat EmptyString (map (fun g => info_text (groupName_load g)) groups).
Proof.
  apply (appendConfigData_text groups).
  apply List.Forall_forall. intros g Hg. apply groups_spec in Hg. lia.
Defined.

(** ** What [addToConfig] writes *)

Lemma assoc_get_put_ne (key k : string) (v : Json)
    (members : list (string * Json)) :
  key <> k -> assoc_get key (assoc_put k v members) = assoc_get key members.
Proof.
  intros Hne. induction members as [|[k' v'] members IH]; cbn.
  - destruct (String.eqb k key) eqn:E; [| reflexivity].
    apply String.eqb_eq in E. congruence.
  - destruct (String.eqb k' k) eqn:E; cbn.
    + apply String.eqb_eq in E. subst k'.
      destruct (String.eqb k key) eqn:E'; [| reflexivity].
      apply String.eqb_eq in E'. congruence.
    + now rewrite IH.
Qed.

Lemma get_put_ne (j : Json) (key k : string) (v : Json) :
  key <> k -> get (put j k v) key = get j key.
Proof.
  intros Hne.
  assert (Hk : String.eqb k key = false).
  { apply String.eqb_neq. congruence. }
  destruct j; cbn; rewrite ?Hk; try reflexivity.
  now apply assoc_get_put_ne.
Qed.

Lemma generate_formatted_pixel_group_total (strip : strip_t) (group : Z)
    (st : state) :
  table_fits strip st ->
  exists s, generate_formatted_pixel_group strip group st = Ok s.
Proof.
  intros Hfits. destruct (pixel_groups st) as [block|] eqn:Hb.
  - eexists. apply (generate_formatted_pixel_group_spec strip group st block Hb).
    now apply Hfits.
  - exists EmptyString. unfold generate_formatted_pixel_group. now rewrite Hb.
Qed.

(** X7: with no table or one as long as the strip, [addToConfig] returns
    a document in which the usermod's object holds the enabled flag and,
    for each group 1..4 under the key "Group <g>", exactly the group's
    current scale and the encoding of its pixels; every other member of
    the document it was given is as before. *)
Theorem addToConfig_lookup (strip : strip_t) (root : Json) (st : state) :
  table_fits strip st ->
  exists root',
    addToConfig strip root st = Ok root' /\
    get (config_top root') _enabled = JBool (enabled st) /\
    (forall g, In g groups ->
       exists s,
         generate_formatted_pixel_group strip g st = Ok s /\
         get (config_top root') (groupName_save g) =
         JObj [("scale"%string, JNum (scale_at st g));
               ("pixels"%string, JStr s)]) /\
    (forall key, key <> _name -> get root' key = get root key).
Proof.
  intros Hfits.
  destruct (generate_formatted_pixel_group_total strip 1 st Hfits) as [p1 H1].
  destruct (generate_formatted_pixel_group_total strip 2 st Hfits) as [p2 H2].
  destruct (generate_formatted_pixel_group_total strip 3 st Hfits) as [p3 H3].
  destruct (generate_formatted_pixel_group_total strip 4 st Hfits) as [p4 H4].
  unfold addToConfig. change groups with [1; 2; 3; 4].
  cbn [addToConfig_loop].
  change (to_uint8 1) with 1. change (to_uint8 2) with 2.
  change (to_uint8 3) with 3. change (to_uint8 4) with 4.
  rewrite H1. cbn [bind]. rewrite H2. cbn [bind].
  rewrite H3. cbn [bind]. rewrite H4. cbn [bind].
  eexists. split; [reflexivity |].
  unfold config_top. rewrite get_put.
  split; [vm_compute; reflexivity |]. split.
  - intros g Hg.
    assert (Hc : g = 1 \/ g = 2 \/ g = 3 \/ g = 4) by (cbn in Hg; lia).
    destruct Hc as [-> | [-> | [-> | ->]]];
      [exists p1 | exists p2 | exists p3 | exists p4];
      (split; [assumption | vm_compute; reflexivity]).
  - intros key Hkey. now apply get_put_ne.
Qed.

Lemma addToConfig_lookup_witness :
  exists root',
    addToConfig grey_strip sample_root half_state = Ok root' /\
    get (config_top root') _enabled = JBool true /\
    (forall g, In g groups ->
       exists s,
         generate_formatted_pixel_group grey_strip g half_state = Ok s /\
         get (config_top root') (groupName_save g) =
         JObj [("scale"%string, JNum (scale_at half_state g));
               ("pixels"%string, JStr s)]) /\
    (forall key, key <> _name -> get root' key = get sample_root key).
Proof.
  apply (addToConfig_lookup grey_strip sample_root half_state).
  intros block H. injection H as <-. reflexivity.
Defined.

(** ** What a load leaves alone *)

Lemma process_tokens_table (strip : strip_t) (group : Z)
    (tokens : list string) (st st' : state) (block : list Z) :
  process_tokens strip group tokens st = Ok st' ->
  pixel_groups st = Some block ->
  exists block', pixel_groups st' = Some block' /\ length block' = length block.
Proof.
  revert st block. induction tokens as [|token rest IH]; intros st block H Hb.
  - injection H as <-. now exists block.
  - cbn [process_tokens] in H.
    destruct (negb (to_uint8 (atoi token) =? 0) &&
              (to_uint8 (atoi token) <=? Z.of_nat (getLengthPhysical strip))).
    + rewrite Hb in H. cbn [deref bind] in H. unfold store in H.
      destruct (Z.to_nat (to_uint8 (atoi token) - 1) <? length block)%nat;
        [| discriminate H].
      cbn [bind] in H.
      destruct (IH _ _ H eq_refl) as (block' & Hb' & Hlen').
      exists block'. split; [exact Hb' |]. now rewrite Hlen', length_insert.
    + now apply (IH st).
Qed.

Lemma process_pixel_group_str_table (strip : strip_t) (group : Z) (s : string)
    (st st' : state) (block : list Z) :
  process_pixel_group_str strip group s st = Ok st' ->
  pixel_groups st = Some block ->
  exists block', pixel_groups st' = Some block' /\ length block' = length block.
Proof.
  unfold process_pixel_group_str. destruct (negb (initDone st)).
  - intros H Hb. injection H as <-. now exists block.
  - apply process_tokens_table.
Qed.

Lemma readFromConfig_loop_keeps (strip : strip_t) (h : heap) (top : Json)
    (gs : list Z) (st st' : state) (configComplete ok : bool) :
  readFromConfig_loop strip h top gs st configComplete = Ok (st', ok) ->
  enabled st' = enabled st /\ initDone st' = initDone st /\
  lastTime st' = lastTime st /\
  forall block, pixel_groups st = Some block ->
    exists block', pixel_groups st' = Some block' /\ length block' = length block.
Proof.
  revert st configComplete.
  induction gs as [|group rest IH]; intros st cc Hrun.
  - cbn in Hrun. injection Hrun as <- _. repeat split. intros block Hb.
    now exists block.
  - rewrite readFromConfig_loop_cons in Hrun. cbv zeta in Hrun.
    set (st1 := set_group_scale st
                  (<[Z.to_nat group := loaded_scale top group]> (group_scale st)))
      in Hrun.
    assert (Hnext : forall st2,
      (st3 <- process_pixel_group_str strip (to_uint8 group)
                (loaded_pixels top group) st2 ;;
       readFromConfig_loop strip h top rest st3 (cc && fields_present top group))
      = Ok (st', ok) ->
      enabled st' = enabled st2 /\ initDone st' = initDone st2 /\
      lastTime st' = lastTime st2 /\
      forall block, pixel_groups st2 = Some block ->
        exists block', pixel_groups st' = Some block' /\
                       length block' = length block).
    { intros st2 Hr.
      destruct (process_pixel_group_str strip (to_uint8 group) _ st2)
        as [st3|] eqn:Hp; [| discriminate Hr].
      cbn [bind] in Hr. apply IH in Hr as (He & Hi & Hl & Ht).
      pose proof (process_pixel_group_str_frame _ _ _ _ _ Hp)
        as (He3 & Hi3 & Hl3 & _).
      repeat split; [congruence | congruence | congruence |].
      intros block Hb.
      destruct (process_pixel_group_str_table _ _ _ _ _ _ Hp Hb)
        as (block3 & Hb3 & Hlen3).
      destruct (Ht block3 Hb3) as (block' & Hb' & Hlen').
      exists block'. split; [exact Hb' | congruence]. }
    destruct (pixel_groups st) as [block|] eqn:Hb.
    + destruct (Hnext st1 Hrun) as (He & Hi & Hl & Ht).
      repeat split; try assumption. intros block0 Hb0.
      injection Hb0 as <-. apply Ht. exact Hb.
    + destruct (malloc h (getLengthPhysical strip)) as [block|].
      * destruct (Hnext _ Hrun) as (He & Hi & Hl & _).
        repeat split; try assumption. intros block0 Hb0. discriminate Hb0.
      * injection Hrun as <- _. repeat split. intros block0 Hb0.
        discriminate Hb0.
Qed.

(** X8: a load that returns leaves [enabled] (the flag [addToConfig]
    saves is not read back), [initDone] and [lastTime] as they were, and a
    table that was allocated stays allocated with its length. *)
Theorem readFromConfig_keeps (strip : strip_t) (h : heap) (root : Json)
    (st st' : state) (ok : bool) :
  readFromConfig strip h root st = Ok (st', ok) ->
  enabled st' = enabled st /\ initDone st' = initDone st /\
  lastTime st' = lastTime st /\
  forall block, pixel_groups st = Some block ->
    exists block', pixel_groups st' = Some block' /\ length block' = length block.
Proof. unfold readFromConfig. apply readFromConfig_loop_keeps. Qed.

Lemma readFromConfig_keeps_witness :
  exists st',
    readFromConfig grey_strip None sample_root (enable false half_state)
      = Ok (st', true) /\
    enabled st' = false /\ initDone st' = true /\ lastTime st' = 0 /\
    forall block, pixel_groups (enable false half_state) = Some block ->
      exists block', pixel_groups st' = Some block' /\
                     length block' = length block.
Proof.
  eexists. split; [vm_compute; reflexivity |].
  eapply (readFromConfig_keeps grey_strip None sample_root
            (enable false half_state)).
  vm_compute. reflexivity.
Defined.

Lemma readFromConfig_loop_heap (strip : strip_t) (h h' : heap) (top : Json)
    (gs : list Z) (st : state) (configComplete : bool) :
  pixel_groups st <> None ->
  readFromConfig_loop strip h top gs st configComplete =
  readFromConfig_loop strip h' top gs st configComplete.
Proof.
  revert st configComplete.
  induction gs as [|group rest IH]; intros st cc Hb; [reflexivity |].
  rewrite !readFromConfig_loop_cons. cbv zeta.
  destruct (pixel_groups st) as [block|] eqn:Hblock; [| contradiction].
  destruct (process_pixel_group_str strip (to_uint8 group)
              (loaded_pixels top group) _) as [st3|] eqn:Hp; [| reflexivity].
  cbn [bind]. apply IH.
  destruct (process_pixel_group_str_table _ _ _ _ _ block Hp)
    as (block3 & Hb3 & _); [exact Hblock |].
  now rewrite Hb3.
Qed.

(** X9: with the table allocated, a load does not allocate: its result is
    the same whatever the heap would have answered. *)
Theorem readFromConfig_no_reallocation (strip : strip_t) (h h' : heap)
    (root : Json) (st : state) :
  pixel_groups st <> None ->
  readFromConfig strip h root st = readFromConfig strip h' root st.
Proof. unfold readFromConfig. apply readFromConfig_loop_heap. Qed.

Lemma readFromConfig_no_reallocation_witness :
  readFromConfig grey_strip None sample_root half_state =
  readFromConfig grey_strip (Some (fun _ => 9)) sample_root half_state.
Proof.
  apply (readFromConfig_no_reallocation grey_strip None (Some (fun _ => 9))
           sample_root half_state).
  discriminate.
Defined.

(** ** The table after a load *)

Lemma readFromConfig_loop_table (strip : strip_t) (h : heap) (top : Json)
    (gs : list Z) (st : state) (block : list Z) (configComplete : bool) :
  initDone st = true ->
  pixel_groups st = Some block ->
  length block = getLengthPhysical strip ->
  exists st' ok block',
    readFromConfig_loop strip h top gs st configComplete = Ok (st', ok) /\
    pixel_groups st' = Some block' /\
    length block' = length block /\
    forall i : nat, block' !! i = load_entry strip top gs i (block !! i).
Proof.
  revert st block configComplete.
  induction gs as [|group rest IH]; intros st block cc Hinit Hb Hlen.
  - exists st, cc, block. repeat split; assumption.
  - rewrite readFromConfig_loop_cons. cbv zeta. rewrite Hb.
    set (st1 := set_group_scale st
                  (<[Z.to_nat group := loaded_scale top group]> (group_scale st))).
    destruct (decode_lookup strip (to_uint8 group) (loaded_pixels top group)
                st1 block) as (block1 & Hrun1 & Hlen1 & Hspec1);
      [exact Hinit | exact Hb | lia |].
    rewrite Hrun1. cbn [bind].
    destruct (IH (set_pixel_groups st1 (Some block1)) block1
                 (cc && fields_present top group))
      as (st' & ok & block' & Hrun & Hb' & Hlen' & Hspec);
      [exact Hinit | reflexivity | lia |].
    exists st', ok, block'. split; [exact Hrun |]. split; [exact Hb' |].
    split; [lia |]. intros i. rewrite Hspec, Hspec1. reflexivity.
Qed.

Lemma load_entry_some (strip : strip_t) (top : Json) (gs : list Z) (i : nat)
    (cur : option Z) :
  Forall (fun g => to_uint8 g <> 0) gs ->
  (exists v, cur = Some v /\ v <> 0) ->
  exists v, load_entry strip top gs i cur = Some v /\ v <> 0.
Proof.
  revert cur. induction gs as [|g gs IH]; intros cur Hgs Hcur; [exact Hcur |].
  inversion Hgs as [|? ? Hg Hgs']; subst.
  unfold load_entry in *. cbn [fold_left]. apply IH; [exact Hgs' |].
  destruct (names strip (loaded_pixels top g) i); [| exact Hcur].
  now exists (to_uint8 g).
Qed.

(** X10: once [setup()] has run, a load over a table as long as the
    strip, from a document whose pixels texts hold numbers that fit an
    [int], returns and leaves every entry as the last of the groups 1, 2,
    3, 4 whose pixels text lists the pixel: when several groups list a
    pixel the highest-numbered one has it, and a pixel that no text lists
    keeps the entry it had. *)
Theorem readFromConfig_table (strip : strip_t) (h : heap) (root : Json)
    (st : state) (block : list Z) :
  forallb (fun g => tokens_fit_int (loaded_pixels (config_top root) g)) groups
    = true ->
  initDone st = true ->
  pixel_groups st = Some block ->
  length block = getLengthPhysical strip ->
  exists st' ok block',
    readFromConfig strip h root st = Ok (st', ok) /\
    pixel_groups st' = Some block' /\
    length block' = length block /\
    forall i : nat,
      block' !! i =
      if lists_pixel strip (loaded_pixels (config_top root) 4) i then Some 4
      else if lists_pixel strip (loaded_pixels (config_top root) 3) i then Some 3
      else if lists_pixel strip (loaded_pixels (config_top root) 2) i then Some 2
      else if lists_pixel strip (loaded_pixels (config_top root) 1) i then Some 1
      else block !! i.
Proof.
  intros Hfit Hinit Hb Hlen. unfold readFromConfig. fold (config_top root).
  destruct (readFromConfig_loop_table strip h (config_top root) groups st block
              (negb (isNull (config_top root))) Hinit Hb Hlen)
    as (st' & ok & block' & Hrun & Hb' & Hlen' & Hspec).
  exists st', ok, block'. split; [exact Hrun |]. split; [exact Hb' |].
  split; [exact Hlen' |]. intros i. rewrite Hspec.
  change groups with [1; 2; 3; 4] in Hfit. cbn [forallb] in Hfit.
  apply andb_prop in Hfit as [H1 Hfit]. apply andb_prop in Hfit as [H2 Hfit].
  apply andb_prop in Hfit as [H3 Hfit]. apply andb_prop in Hfit as [H4 _].
  rewrite <- !names_lists_pixel by assumption. reflexivity.
Qed.

Lemma readFromConfig_table_witness :
  exists st' ok block',
    readFromConfig grey_strip None sample_root half_state = Ok (st', ok) /\
    pixel_groups st' = Some block' /\
    length block' = 5%nat /\
    forall i : nat,
      block' !! i =
      if lists_pixel grey_strip (loaded_pixels (config_top sample_root) 4) i
      then Some 4
      else if lists_pixel grey_strip (loaded_pixels (config_top sample_root) 3) i
      then Some 3
      else if lists_pixel grey_strip (loaded_pixels (config_top sample_root) 2) i
      then Some 2
      else if lists_pixel grey_strip (loaded_pixels (config_top sample_root) 1) i
      then Some 1
      else [2; 0; 2; 0; 2] !! i.
Proof.
  apply (readFromConfig_table grey_strip None sample_root half_state
           [2; 0; 2; 0; 2]).
  - reflexivity.
  - reflexivity.
  - reflexivity.
  - reflexivity.
Defined.

(** X11: such a load never returns a pixel to the default group: an entry
    that is not 0 before the load is not 0 after it, whatever the
    document holds. *)
Theorem readFromConfig_never_clears (strip : strip_t) (h : heap) (root : Json)
    (st : state) (block : list Z) :
  initDone st = true ->
  pixel_groups st = Some block ->
  length block = getLengthPhysical strip ->
  exists st' ok block',
    readFromConfig strip h root st = Ok (st', ok) /\
    pixel_groups st' = Some block' /\
    forall (i : nat) (v : Z),
      block !! i = Some v -> v <> 0 ->
      exists v', block' !! i = Some v' /\ v' <> 0.
Proof.
  intros Hinit Hb Hlen. unfold readFromConfig. fold (config_top root).
  destruct (readFromConfig_loop_table strip h (config_top root) groups st block
              (negb (isNull (config_top root))) Hinit Hb Hlen)
    as (st' & ok & block' & Hrun & Hb' & _ & Hspec).
  exists st', ok, block'. split; [exact Hrun |]. split; [exact Hb' |].
  intros i v Hv Hnz. rewrite Hspec. apply load_entry_some.
  - change groups with [1; 2; 3; 4]. repeat constructor; discriminate.
  - now exists v.
Qed.

Lemma readFromConfig_never_clears_witness :
  exists st' ok block',
    readFromConfig grey_strip None (JObj []) half_state = Ok (st', ok) /\
    pixel_groups st' = Some block' /\
    forall (i : nat) (v : Z),
      [2; 0; 2; 0; 2] !! i = Some v -> v <> 0 ->
      exists v', block' !! i = Some v' /\ v' <> 0.
Proof.
  apply (readFromConfig_never_clears grey_strip None (JObj []) half_state
           [2; 0; 2; 0; 2]).
  - reflexivity.
  - reflexivity.
  - reflexivity.
Defined.

(** ** The overlay on a valid and on an invalid table *)

Lemma handleOverlayDraw_spec (st : state) (strip : strip_t) (block : list Z) :
  initDone st = true ->
  enabled st = true ->
  pixel_groups st = Some block ->
  length block = getLengthPhysical strip ->
  Forall (fun gid => (Z.to_nat gid < length (group_scale st))%nat) block ->
  exists strip',
    handleOverlayDraw st strip = Ok strip' /\
    length strip' = length strip /\
    forall (i : nat) (c gid : Z),
      strip !! i = Some c -> block !! i = Some gid ->
      strip' !! i = Some (scaled_color (scale_at st gid) c).
Proof.
  intros Hinit Hen Hb Hlen Hgids.
  unfold handleOverlayDraw. rewrite Hinit, Hen. cbn [negb orb].
  destruct (overlay_loop_spec st block (seq 0 (getLengthPhysical strip)) strip Hb)
    as (strip' & Hrun & Hlen' & Hspec).
  { apply NoDup_seq. }
  { apply List.Forall_forall. intros p Hp. apply in_seq in Hp.
    destruct (lookup_lt_is_Some_2 block p) as [gid Hgid]; [lia |].
    rewrite List.Forall_forall in Hgids.
    destruct (lookup_lt_is_Some_2 (group_scale st) (Z.to_nat gid)) as [s Hs].
    { apply Hgids. apply list_elem_of_In. eapply list_elem_of_lookup_2.
      exact Hgid. }
    exists gid, s. now split. }
  exists strip'. split; [exact Hrun |]. split; [exact Hlen' |].
  intros i c gid Hc Hgid. destruct (Hspec i) as [Hin _].
  rewrite Hin by (apply in_seq; apply lookup_lt_Some in Hc;
                  unfold getLengthPhysical; lia).
  rewrite Hc. unfold pixel_scale. now rewrite Hgid.
Qed.

(** X12: on a table of group ids 0..4 with scales of at most 100 the
    overlay only dims: no channel of any pixel is higher after it than
    before, and a pixel whose group has the scale 0 becomes black. *)
Theorem handleOverlayDraw_dims (st : state) (strip : strip_t) (block : list Z) :
  initDone st = true ->
  enabled st = true ->
  pixel_groups st = Some block ->
  length block = getLengthPhysical strip ->
  Forall (fun gid => 0 <= gid <= max_groups) block ->
  length (group_scale st) = 5%nat ->
  Forall (fun s => 0 <= s <= 100) (group_scale st) ->
  exists strip',
    handleOverlayDraw st strip = Ok strip' /\
    forall (i : nat) (c gid : Z),
      strip !! i = Some c -> block !! i = Some gid ->
      exists c',
        strip' !! i = Some c' /\
        R c' <= R c /\ G c' <= G c /\ B c' <= B c /\ W c' <= W c /\
        (scale_at st gid = 0 -> c' = 0).
Proof.
  intros Hinit Hen Hb Hlen Hgids Hscales Hle.
  destruct (handleOverlayDraw_spec st strip block Hinit Hen Hb Hlen)
    as (strip' & Hrun & _ & Hspec).
  { eapply List.Forall_impl; [| exact Hgids]. cbn beta.
    unfold max_groups. intros gid Hgid. lia. }
  exists strip'. split; [exact Hrun |].
  intros i c gid Hc Hgid. exists (scaled_color (scale_at st gid) c).
  split; [now apply Hspec |].
  assert (Hs : 0 <= scale_at st gid <= 100).
  { rewrite List.Forall_forall in Hgids, Hle.
    assert (Hg : 0 <= gid <= max_groups).
    { apply Hgids. apply list_elem_of_In. eapply list_elem_of_lookup_2.
      exact Hgid. }
    unfold max_groups in Hg.
    destruct (lookup_lt_is_Some_2 (group_scale st) (Z.to_nat gid)) as [s Hs];
      [lia |].
    unfold scale_at. rewrite Hs. apply Hle.
    apply list_elem_of_In. eapply list_elem_of_lookup_2. exact Hs. }
  assert (Hch : forall ch, 0 <= ch <= 255 ->
            to_uint8 (scale_channel ch (scale_at st gid)) <= ch).
  { intros ch Hch.
    destruct (scale_channel_spec ch (scale_at st gid) Hch Hs) as [-> Hr].
    rewrite to_uint8_small by exact Hr.
    apply Z.div_le_upper_bound; nia. }
  unfold scaled_color at 1 2 3 4.
  rewrite R_RGBW32, G_RGBW32, B_RGBW32, W_RGBW32.
  repeat split; try (apply Hch; unfold R, G, B, W; apply to_uint8_range).
  intros H0. unfold scaled_color, scale_channel. rewrite H0.
  rewrite !Z.mul_0_r. reflexivity.
Qed.

Lemma handleOverlayDraw_dims_witness :
  exists strip',
    handleOverlayDraw half_state grey_strip = Ok strip' /\
    forall (i : nat) (c gid : Z),
      grey_strip !! i = Some c -> [2; 0; 2; 0; 2] !! i = Some gid ->
      exists c',
        strip' !! i = Some c' /\
        R c' <= R c /\ G c' <= G c /\ B c' <= B c /\ W c' <= W c /\
        (scale_at half_state gid = 0 -> c' = 0).
Proof.
  apply (handleOverlayDraw_dims half_state grey_strip [2; 0; 2; 0; 2]).
  - reflexivity.
  - reflexivity.
  - reflexivity.
  - reflexivity.
  - repeat (apply List.Forall_cons; [unfold max_groups; lia |]).
    apply List.Forall_nil.
  - reflexivity.
  - repeat (apply List.Forall_cons; [lia |]). apply List.Forall_nil.
Defined.

Lemma overlay_loop_invalid (st : state) (block : list Z) (pixels : list nat)
    (strip : strip_t) (i : nat) (gid : Z) :
  pixel_groups st = Some block ->
  Forall (fun p => (p < length block)%nat) pixels ->
  In i pixels ->
  block !! i = Some gid ->
  (length (group_scale st) <= Z.to_nat gid)%nat ->
  overlay_loop st pixels strip = Fault OutOfBounds.
Proof.
  intros Hb Hin Hi Hgid Hbad. revert strip.
  induction pixels as [|p rest IH]; intros strip; [destruct Hi |].
  inversion Hin as [|? ? Hp Hin']; subst.
  cbn [overlay_loop]. rewrite Hb. cbn [deref bind].
  destruct (lookup_lt_is_Some_2 block p Hp) as [g Hg].
  unfold load at 1. rewrite Hg. cbn [bind]. unfold load at 1.
  destruct (group_scale st !! Z.to_nat g) as [s|] eqn:Hs; [| reflexivity].
  cbn [bind]. apply IH; [exact Hin' |].
  destruct Hi as [-> | Hi]; [| exact Hi].
  rewrite Hgid in Hg. injection Hg as <-.
  apply lookup_lt_Some in Hs. lia.
Qed.

(** X13: set up and enabled, the overlay indexes [group_scale] with the
    table's entries unchecked: if some pixel's entry is not below the
    array's five elements, the frame ends in a read beyond the array. *)
Theorem handleOverlayDraw_invalid_group (st : state) (strip : strip_t)
    (block : list Z) (i : nat) (gid : Z) :
  initDone st = true ->
  enabled st = true ->
  pixel_groups st = Some block ->
  length block = getLengthPhysical strip ->
  length (group_scale st) = 5%nat ->
  block !! i = Some gid ->
  5 <= gid ->
  handleOverlayDraw st strip = Fault OutOfBounds.
Proof.
  intros Hinit Hen Hb Hlen Hscales Hgid Hbad.
  unfold handleOverlayDraw. rewrite Hinit, Hen. cbn [negb orb].
  apply (overlay_loop_invalid st block _ strip i gid Hb).
  - apply List.Forall_forall. intros p Hp. apply in_seq in Hp. lia.
  - apply in_seq. apply lookup_lt_Some in Hgid. lia.
  - exact Hgid.
  - lia.
Qed.

Lemma handleOverlayDraw_invalid_group_witness :
  run [OpReadFromConfig sample_root (Some (fun _ => 7)); OpSetup; OpEnable true;
       OpHandleOverlayDraw] (constructed [], [255; 0; 0])
    = Fault OutOfBounds /\
  handleOverlayDraw
    {| enabled := true; initDone := true; lastTime := 0;
       group_scale := [100; 100; 50; 0; 100];
       pixel_groups := Some [7; 7; 7] |} [255; 0; 0] = Fault OutOfBounds.
Proof.
  split; [reflexivity |].
  apply (handleOverlayDraw_invalid_group _ [255; 0; 0] [7; 7; 7] 1 7).
  - reflexivity.
  - reflexivity.
  - reflexivity.
  - reflexivity.
  - reflexivity.
  - reflexivity.
  - lia.
Defined.

(** ** Whole sessions *)

Lemma addToConfig_ok (strip : strip_t) (root : Json) (st : state) :
  table_fits strip st -> exists root', addToConfig strip root st = Ok root'.
Proof.
  intros Hfits.
  destruct (generate_formatted_pixel_group_total strip 1 st Hfits) as [p1 H1].
  destruct (generate_formatted_pixel_group_total strip 2 st Hfits) as [p2 H2].
  destruct (generate_formatted_pixel_group_total strip 3 st Hfits) as [p3 H3].
  destruct (generate_formatted_pixel_group_total strip 4 st Hfits) as [p4 H4].
  unfold addToConfig. change groups with [1; 2; 3; 4].
  cbn [addToConfig_loop].
  change (to_uint8 1) with 1. change (to_uint8 2) with 2.
  change (to_uint8 3) with 3. change (to_uint8 4) with 4.
  rewrite H1. cbn [bind]. rewrite H2. cbn [bind].
  rewrite H3. cbn [bind]. rewrite H4. cbn [bind].
  eexists. reflexivity.
Qed.

Lemma load_entry_valid (strip : strip_t) (top : Json) (gs : list Z) (i : nat)
    (cur : option Z) (v : Z) :
  Forall (fun g => 0 <= to_uint8 g <= max_groups) gs ->
  (forall v', cur = Some v' -> 0 <= v' <= max_groups) ->
  load_entry strip top gs i cur = Some v -> 0 <= v <= max_groups.
Proof.
  revert cur. induction gs as [|g gs IH]; intros cur Hgs Hcur H.
  - now apply Hcur.
  - inversion Hgs as [|? ? Hg Hgs']; subst.
    unfold load_entry in *. cbn [fold_left] in H.
    apply (IH _ Hgs') in H; [exact H |].
    destruct (names strip (loaded_pixels top g) i); [| exact Hcur].
    intros v' Hv'. injection Hv' as <-. exact Hg.
Qed.

Lemma readFromConfig_healthy (strip : strip_t) (h : heap) (root : Json)
    (st : state) :
  healthy (st, strip) ->
  exists st' ok,
    readFromConfig strip h root st = Ok (st', ok) /\ healthy (st', strip).
Proof.
  intros (Hgs & block & Hb & Hlen & Hids). cbn [fst snd] in *.
  unfold readFromConfig. fold (config_top root).
  set (top := config_top root). set (cc := negb (isNull top)).
  destruct (readFromConfig_loop_ok strip h top groups st cc)
    as (st' & ok & Hrun & _ & (_ & _ & _ & Hscales) & _ & _).
  { intros b Hb'. rewrite Hb in Hb'. now injection Hb' as <-. }
  { left. now rewrite Hb. }
  exists st', ok. split; [exact Hrun |].
  split; cbn [fst snd].
  { rewrite Hscales. cbn [group_scale set_group_scale].
    now rewrite load_scales_length. }
  destruct (initDone st) eqn:Hinit.
  - destruct (readFromConfig_loop_table strip h top groups st block cc
                Hinit Hb Hlen)
      as (st2 & ok2 & block2 & Hrun2 & Hb2 & Hlen2 & Hspec).
    rewrite Hrun in Hrun2. injection Hrun2 as <- <-.
    exists block2. split; [exact Hb2 |]. split; [lia |].
    apply Forall_lookup. intros i v Hv. rewrite Hspec in Hv.
    apply (load_entry_valid strip top groups i (block !! i) v);
      [| | exact Hv].
    + change groups with [1; 2; 3; 4].
      repeat (apply List.Forall_cons; [vm_compute; split; congruence |]).
      apply List.Forall_nil.
    + intros v' Hv'. rewrite Forall_lookup in Hids. now apply (Hids i).
  - destruct (readFromConfig_loop_uninit strip h top groups st cc Hinit)
      as (st2 & ok2 & Hrun2 & _ & Hb2).
    rewrite Hrun in Hrun2. injection Hrun2 as <- <-.
    rewrite Hb in Hb2. change groups with [1; 2; 3; 4] in Hb2.
    exists block. now repeat split.
Qed.

Lemma step_healthy (o : op) (w : world) :
  healthy w -> exists w', step o w = Ok w' /\ healthy w'.
Proof.
  destruct w as [st strip]. intros Hw.
  pose proof Hw as (Hgs & block & Hb & Hlen & Hids). cbn [fst snd] in *.
  destruct o; cbn [step].
  - eexists. split; [reflexivity |]. split; cbn [fst snd].
    + cbn. now rewrite length_insert.
    + now exists block.
  - eexists. split; [reflexivity |]. unfold loop.
    destruct (negb (enabled st) || isUpdating); [exact Hw |].
    destruct (1000 <? _); [| exact Hw].
    split; [exact Hgs | now exists block].
  - eexists. split; [reflexivity |]. split; [exact Hgs | now exists block].
  - eexists. split; [reflexivity | exact Hw].
  - destruct (addToConfig_ok strip root st) as [root' ->].
    { intros b Hb'. rewrite Hb in Hb'. now injection Hb' as <-. }
    eexists. split; [reflexivity | exact Hw].
  - destruct (readFromConfig_healthy strip h root st Hw)
      as (st' & ok & -> & Hw').
    eexists. split; [reflexivity | exact Hw'].
  - eexists. split; [reflexivity | exact Hw].
  - destruct (initDone st) eqn:Hinit; [destruct (enabled st) eqn:Hen |].
    + destruct (handleOverlayDraw_spec st strip block Hinit Hen Hb Hlen)
        as (strip' & -> & Hlen' & _).
      { eapply List.Forall_impl; [| exact Hids]. cbn beta.
        unfold max_groups. intros gid Hgid. lia. }
      eexists. split; [reflexivity |].
      split; [exact Hgs |]. exists block. cbn [fst snd].
      repeat split; try assumption. unfold getLengthPhysical in *. lia.
    + rewrite handleOverlayDraw_guarded by now right.
      eexists. split; [reflexivity | exact Hw].
    + rewrite handleOverlayDraw_guarded by now left.
      eexists. split; [reflexivity | exact Hw].
  - eexists. split; [reflexivity | exact Hw].
Qed.

(** X14: from a world whose table is allocated, as long as the strip and
    filled with group ids 0..4, every sequence of calls of the usermod
    runs to its end without a memory fault, and leaves such a world. *)
Theorem healthy_run (ops : list op) (w : world) :
  healthy w -> exists w', run ops w = Ok w' /\ healthy w'.
Proof.
  revert w. induction ops as [|o ops IH]; intros w Hw.
  - exists w. now split.
  - destruct (step_healthy o w Hw) as (w1 & Hstep & Hw1).
    destruct (IH w1 Hw1) as (w' & Hrun & Hw').
    exists w'. cbn [run]. rewrite Hstep. cbn [bind]. now split.
Qed.

Lemma healthy_run_witness :
  exists w', run busy_session (half_state, grey_strip) = Ok w' /\ healthy w'.
Proof.
  apply (healthy_run busy_session (half_state, grey_strip)).
  split; [reflexivity |]. exists [2; 0; 2; 0; 2].
  split; [reflexivity |]. split; [reflexivity |].
  repeat (apply List.Forall_cons; [unfold max_groups; lia |]).
  apply List.Forall_nil.
Defined.

Lemma overlay_loop_length (st : state) (pixels : list nat)
    (strip strip' : strip_t) :
  overlay_loop st pixels strip = Ok strip' -> length strip' = length strip.
Proof.
  revert strip. induction pixels as [|p rest IH]; intros strip H.
  - now injection H as <-.
  - cbn [overlay_loop] in H.
    destruct (deref (pixel_groups st)) as [block|]; [| discriminate H].
    cbn [bind] in H.
    destruct (load block p) as [gid|]; [| discriminate H]. cbn [bind] in H.
    destruct (load (group_scale st) (Z.to_nat gid)) as [s|]; [| discriminate H].
    cbn [bind] in H. apply IH in H. rewrite H. apply length_insert.
Qed.

Lemma step_keeps_allocation (o : op) (st st' : state) (strip strip' : strip_t) :
  step o (st, strip) = Ok (st', strip') ->
  length strip' = length strip /\
  forall block, pixel_groups st = Some block ->
    exists block', pixel_groups st' = Some block' /\ length block' = length block.
Proof.
  intros Hstep. destruct o; cbn [step] in Hstep.
  - injection Hstep as <- <-. split; [reflexivity |]. intros blk Hblk. now exists blk.
  - injection Hstep as <- <-. split; [reflexivity |]. intros blk Hblk. exists blk.
    unfold loop. destruct (negb (enabled st) || isUpdating); [now split |].
    destruct (1000 <? _); now split.
  - injection Hstep as <- <-. split; [reflexivity |]. intros blk Hblk. now exists blk.
  - injection Hstep as <- <-. split; [reflexivity |]. intros blk Hblk. now exists blk.
  - destruct (addToConfig strip root st); [| discriminate Hstep].
    injection Hstep as <- <-. split; [reflexivity |]. intros blk Hblk. now exists blk.
  - destruct (readFromConfig strip h root st) as [[st1 ok]|] eqn:Hr;
      [| discriminate Hstep].
    injection Hstep as <- <-. split; [reflexivity |]. cbn [fst].
    unfold readFromConfig in Hr.
    now apply readFromConfig_loop_keeps in Hr as (_ & _ & _ & Ht).
  - injection Hstep as <- <-. split; [reflexivity |]. intros blk Hblk. now exists blk.
  - destruct (handleOverlayDraw st strip) as [strip1|] eqn:Ho;
      [| discriminate Hstep].
    injection Hstep as <- <-. split; [| intros blk Hblk; now exists blk].
    unfold handleOverlayDraw in Ho.
    destruct (negb (initDone st) || negb (enabled st)).
    + now injection Ho as <-.
    + now apply overlay_loop_length in Ho.
  - injection Hstep as <- <-. split; [reflexivity |]. intros blk Hblk. now exists blk.
Qed.

(** X15: no call of the usermod frees, moves or resizes the table, or
    changes the strip's length: after any sequence of calls that runs to
    its end, a table that was allocated is allocated with the same
    length. *)
Theorem run_keeps_allocation (ops : list op) (st st' : state)
    (strip strip' : strip_t) (block : list Z) :
  run ops (st, strip) = Ok (st', strip') ->
  pixel_groups st = Some block ->
  length strip' = length strip /\
  exists block', pixel_groups st' = Some block' /\ length block' = length block.
Proof.
  revert st strip block. induction ops as [|o ops IH]; intros st strip block Hrun Hb.
  - injection Hrun as <- <-. split; [reflexivity | now exists block].
  - cbn [run] in Hrun.
    destruct (step o (st, strip)) as [[st1 strip1]|] eqn:Hstep;
      [| discriminate Hrun].
    cbn [bind] in Hrun.
    apply step_keeps_allocation in Hstep as [Hlen Ht].
    destruct (Ht block Hb) as (block1 & Hb1 & Hlen1).
    destruct (IH _ _ _ Hrun Hb1) as (Hlen' & block' & Hb' & Hlen'').
    split; [congruence |]. exists block'. split; [exact Hb' | congruence].
Qed.

Lemma run_keeps_allocation_witness :
  exists st' strip',
    run busy_session (half_state, grey_strip) = Ok (st', strip') /\
    length strip' = length grey_strip /\
    exists block', pixel_groups st' = Some block' /\ length block' = 5%nat.
Proof.
  eexists _, _. split; [vm_compute; reflexivity |].
  eapply (run_keeps_allocation busy_session half_state _ grey_strip _
            [2; 0; 2; 0; 2]).
  - vm_compute. reflexivity.
  - reflexivity.
Defined.

Lemma step_inert (o : op) (st st' : state) (strip strip' : strip_t) :
  step o (st, strip) = Ok (st', strip') ->
  enabled st = false ->
  not_enabling o = true ->
  enabled st' = false /\ strip' = strip.
Proof.
  intros Hstep Hen Ho. destruct o; cbn [step] in Hstep.
  - injection Hstep as <- <-. now split.
  - injection Hstep as <- <-. split; [| reflexivity]. unfold loop.
    now rewrite Hen.
  - injection Hstep as <- <-. split; [| reflexivity].
    destruct b; [discriminate Ho | reflexivity].
  - injection Hstep as <- <-. now split.
  - destruct (addToConfig strip root st); [| discriminate Hstep].
    injection Hstep as <- <-. now split.
  - destruct (readFromConfig strip h root st) as [[st1 ok]|] eqn:Hr;
      [| discriminate Hstep].
    injection Hstep as <- <-. split; [| reflexivity]. cbn [fst].
    unfold readFromConfig in Hr.
    apply readFromConfig_loop_keeps in Hr as (He & _). congruence.
  - injection Hstep as <- <-. now split.
  - rewrite handleOverlayDraw_guarded in Hstep by now right.
    injection Hstep as <- <-. now split.
  - injection Hstep as <- <-. now split.
Qed.

(** X16: nothing but [enable(true)] switches the usermod on: from a state
    with [enabled] false (the state the object is constructed in), a
    sequence of calls without [enable(true)] that runs to its end leaves
    [enabled] false and every pixel's colour as it was, whatever
    documents were loaded. *)
Theorem run_inert (ops : list op) (st st' : state) (strip strip' : strip_t) :
  run ops (st, strip) = Ok (st', strip') ->
  enabled st = false ->
  forallb not_enabling ops = true ->
  enabled st' = false /\ strip' = strip.
Proof.
  revert st strip. induction ops as [|o ops IH]; intros st strip Hrun Hen Hops.
  - injection Hrun as <- <-. now split.
  - cbn [run] in Hrun. cbn [forallb] in Hops.
    apply andb_prop in Hops as [Ho Hops].
    destruct (step o (st, strip)) as [[st1 strip1]|] eqn:Hstep;
      [| discriminate Hrun].
    cbn [bind] in Hrun.
    apply step_inert in Hstep as [Hen1 ->]; [| exact Hen | exact Ho].
    now apply (IH st1 strip).
Qed.

Lemma run_inert_witness :
  exists st',
    run quiet_session (constructed [], grey_strip) = Ok (st', grey_strip) /\
    enabled st' = false /\ grey_strip = grey_strip.
Proof.
  eexists. split; [vm_compute; reflexivity |].
  apply (run_inert quiet_session (constructed []) _ grey_strip grey_strip).
  - vm_compute. reflexivity.
  - reflexivity.
  - reflexivity.
Defined.

(** ** After a load *)

Lemma loaded_scale_range (top : Json) (g : Z) : 0 <= loaded_scale top g <= 100.
Proof.
  unfold loaded_scale, getJsonValue_uint8.
  destruct (isNull (scale_field top g)); cbn [fst]; [lia |].
  assert (H : 0 <= as_uint8 (scale_field top g)).
  { destruct (scale_field top g); cbn; try lia.
    destruct ((0 <=? n) && (n <=? 255)) eqn:E; [| lia].
    apply andb_prop in E as [E _]. apply Z.leb_le in E. exact E. }
  lia.
Qed.

(** X17: a load that does not stop for want of memory leaves each of the
    four configurable scales between 0 and 100, whatever the document
    holds or lacks. *)
Theorem readFromConfig_scales_in_range (strip : strip_t) (h : heap)
    (root : Json) (st : state) :
  length (group_scale st) = 5%nat ->
  table_fits strip st ->
  pixel_groups st <> None \/ h <> None ->
  exists st' ok,
    readFromConfig strip h root st = Ok (st', ok) /\
    forall g, In g groups -> 0 <= scale_at st' g <= 100.
Proof.
  intros Hlen Hfits Halloc. unfold readFromConfig. fold (config_top root).
  destruct (readFromConfig_loop_ok strip h (config_top root) groups st
              (negb (isNull (config_top root))) Hfits Halloc)
    as (st' & ok & Hrun & _ & (_ & _ & _ & Hscales) & _ & _).
  exists st', ok. split; [exact Hrun |].
  intros g Hg. unfold scale_at. rewrite Hscales.
  cbn [group_scale set_group_scale].
  rewrite load_scales_lookup;
    [apply loaded_scale_range | apply groups_nonneg | exact Hg |].
  apply groups_spec in Hg. lia.
Qed.

Lemma readFromConfig_scales_in_range_witness :
  exists st' ok,
    readFromConfig grey_strip (Some (fun _ => 0))
      (JObj [(_name, JObj [group_doc "group1" 130 "1"; group_doc "group3" 40 ""])])
      (constructed [200; 200; 200; 200; 200]) = Ok (st', ok) /\
    forall g, In g groups -> 0 <= scale_at st' g <= 100.
Proof.
  apply (readFromConfig_scales_in_range grey_strip (Some (fun _ => 0)) _
           (constructed [200; 200; 200; 200; 200])).
  - reflexivity.
  - intros block H. discriminate H.
  - right. discriminate.
Defined.

(** X18: a boot-time load whose heap block holds only the bytes 0..4 (a
    zeroed block, for one) leaves a world in which the table is
    allocated, as long as the strip and filled with group ids. *)
Theorem boot_healthy (strip : strip_t) (garbage : nat -> Z) (root : Json)
    (scales : list Z) :
  (forall i, 0 <= to_uint8 (garbage i) <= max_groups) ->
  exists st' ok,
    readFromConfig strip (Some garbage) root (constructed scales) = Ok (st', ok) /\
    healthy (st', strip).
Proof.
  intros Hgarbage. unfold readFromConfig. fold (config_top root).
  set (top := config_top root). set (cc := negb (isNull top)).
  destruct (readFromConfig_loop_ok strip (Some garbage) top groups
              (constructed scales) cc)
    as (st' & ok & Hrun & _ & (_ & _ & _ & Hscales) & _ & _).
  { intros block H. discriminate H. }
  { right. discriminate. }
  destruct (readFromConfig_loop_uninit strip (Some garbage) top groups
              (constructed scales) cc eq_refl)
    as (st2 & ok2 & Hrun2 & _ & Hb2).
  rewrite Hrun in Hrun2. injection Hrun2 as <- <-.
  exists st', ok. split; [exact Hrun |]. split; cbn [fst snd].
  - rewrite Hscales. cbn [group_scale set_group_scale constructed].
    rewrite load_scales_length, length_map, length_take, length_app,
      length_replicate. lia.
  - change groups with [1; 2; 3; 4] in Hb2. cbn in Hb2.
    eexists. split; [exact Hb2 |].
    split; [now rewrite length_map, length_seq |].
    apply List.Forall_forall. intros v Hv.
    apply in_map_iff in Hv as (i & <- & _). apply Hgarbage.
Qed.

Lemma boot_healthy_witness :
  exists st' ok,
    readFromConfig grey_strip (Some (fun _ => 0)) sample_root (constructed [])
      = Ok (st', ok) /\
    healthy (st', grey_strip).
Proof.
  apply (boot_healthy grey_strip (fun _ => 0) sample_root []).
  intros i. vm_compute. split; congruence.
Defined.
